(** * Reference-format validator ([validate_references.py])

    A shallow embedding of [scripts/validate/validate_references.py]:
    the [Reference] record, the five compiled patterns of
    [ReferenceValidator.__init__], [parse_reference], [_extract_fields],
    [_parse_authors], [validate_reference], [check_common_problems],
    [validate_references], [generate_format_examples],
    [read_references_from_file] and [main], followed by the properties of
    the design document that were checked against them and by further
    properties of the code.

    Python strings are sequences of Unicode code points: a [str] is a
    [list N].  The [re] module is embedded as a backtracking matcher with
    capture groups over a small regular-expression syntax that covers the
    constructs the script's patterns use. *)

From Stdlib Require Import String Ascii DecimalString.
From Stdlib Require Import NArith Arith Bool Lia List.
Import ListNotations.

Set Implicit Arguments.
Open Scope N_scope.

(** ** Python strings and builtins *)

Module Py.

Definition str := list N.

(** Source literals are written as UTF-8 strings and decoded to code
    points. *)
Fixpoint utf8_go (acc : N) (need : nat) (bs : list N) : str :=
  match bs with
  | [] => []
  | b :: bs' =>
    match need with
    | O => if b <? 128 then b :: utf8_go 0 0 bs'
           else if b <? 224 then utf8_go (b mod 32) 1 bs'
           else if b <? 240 then utf8_go (b mod 16) 2 bs'
           else utf8_go (b mod 8) 3 bs'
    | S O => (acc * 64 + b mod 64) :: utf8_go 0 0 bs'
    | S n => utf8_go (acc * 64 + b mod 64) n bs'
    end
  end.

Definition u (s : string) : str :=
  utf8_go 0 0 (map N_of_ascii (list_ascii_of_string s)).

Arguments u s%_string.

(** One ASCII character as a code point. *)
Definition ch (a : ascii) : N := N_of_ascii a.
Arguments ch a%_char.

Definition str_eqb (a b : str) : bool :=
  if list_eq_dec N.eq_dec a b then true else false.

(** Exceptions: a computation either returns or raises. *)
Inductive exn := TypeError | IndexError | ValueError.

Inductive py (A : Type) : Type :=
| Ret (a : A)
| Raise (e : exn).
Arguments Raise {A} e.

Definition bind {A B} (m : py A) (f : A -> py B) : py B :=
  match m with
  | Ret a => f a
  | Raise e => Raise e
  end.

(** [str.isspace] on one character, which is also the class [\s] of a
    [str] pattern. *)
Definition isspace (c : N) : bool :=
  ((9 <=? c) && (c <=? 13)) || ((28 <=? c) && (c <=? 32))
  || (c =? 133) || (c =? 160) || (c =? 5760)
  || ((8192 <=? c) && (c <=? 8202))
  || (c =? 8232) || (c =? 8233) || (c =? 8239) || (c =? 8287)
  || (c =? 12288).

(** First code point of every run of ten decimal digits (general
    category Nd of Unicode 15.0, the database of Python 3.12); [\d] of a
    [str] pattern and [int] accept all of them.  The table depends on the
    interpreter's Unicode version; the properties below only rely on the
    validator and the patterns using one and the same class. *)
Definition decimal_zeros : list N :=
  [ 48; 1632; 1776; 1984; 2406; 2534; 2662; 2790; 2918; 3046; 3174; 3302;
    3430; 3558; 3664; 3792; 3872; 4160; 4240; 6112; 6160; 6470; 6608; 6784;
    6800; 6992; 7088; 7232; 7248; 42528; 43216; 43264; 43472; 43504; 43600;
    44016; 65296; 66720; 68912; 69734; 69872; 69942; 70096; 70384; 70736;
    70864; 71248; 71360; 71472; 71904; 72016; 72784; 73040; 73120; 73552;
    92768; 92864; 93008; 120782; 120792; 120802; 120812; 120822; 123200;
    123632; 124144; 125264; 130032 ].

Definition in_run (c z : N) : bool := (z <=? c) && (c <? z + 10).

Definition isdecimal (c : N) : bool := existsb (in_run c) decimal_zeros.

Definition digit_value (c : N) : N :=
  match find (in_run c) decimal_zeros with
  | Some z => c - z
  | None => 0
  end.

(** [s.strip()] *)
Fixpoint lstrip (s : str) : str :=
  match s with
  | c :: s' => if isspace c then lstrip s' else s
  | [] => []
  end.

Definition rstrip (s : str) : str := rev (lstrip (rev s)).

Definition strip (s : str) : str := rstrip (lstrip s).

(** [s.split(sep)] for a one-character separator. *)
Fixpoint split (sep : N) (s : str) : list str :=
  match s with
  | [] => [[]]
  | c :: s' =>
    if c =? sep then [] :: split sep s'
    else match split sep s' with
         | t :: ts => (c :: t) :: ts
         | [] => [[c]]
         end
  end.

(** [sep.join(xs)] *)
Fixpoint join (sep : str) (xs : list str) : str :=
  match xs with
  | [] => []
  | [x] => x
  | x :: xs' => x ++ sep ++ join sep xs'
  end.

(** [x in xs] for a list of strings, and [c in s] for one character. *)
Definition contains (x : str) (xs : list str) : bool := existsb (str_eqb x) xs.

Definition has_char (c : N) (s : str) : bool := existsb (N.eqb c) s.

(** [len(s)] *)
Definition len {A} (xs : list A) : N := N.of_nat (length xs).

(** [str(n)] of a non-negative integer, as interpolated by an f-string.
    The integers printed by the validator are lengths and numbers that
    [int] returned, all of at most [max_str_digits] digits, so that the
    conversion does not fail. *)
Definition str_of_int (n : N) : str :=
  map N_of_ascii (list_ascii_of_string (NilZero.string_of_uint (N.to_uint n))).

(** An optional value interpolated by an f-string: [None] prints as
    ["None"]. *)
Definition str_of_opt_int (n : option N) : str :=
  match n with
  | Some k => str_of_int k
  | None => u "None"
  end.

(** [int(v)] where [v] is a matched group: [None] is a [TypeError]; a
    string of decimal digits is its value, unless it has more characters
    than the interpreter converts ([sys.int_info.default_max_str_digits],
    4300 since Python 3.11, leading zeros included), which is a
    [ValueError]; anything else that is not a run of decimal digits is a
    [ValueError] too. *)
Definition int_digits (s : str) : N :=
  fold_left (fun acc c => acc * 10 + digit_value c) s 0.

Definition max_str_digits : N := 4300.

Definition int (v : option str) : py N :=
  match v with
  | None => Raise TypeError
  | Some [] => Raise ValueError
  | Some s =>
    if forallb isdecimal s then
      if max_str_digits <? len s then Raise ValueError else Ret (int_digits s)
    else Raise ValueError
  end.

(** Truth value of [None] or a string. *)
Definition truthy (v : option str) : bool :=
  match v with
  | Some (_ :: _) => true
  | _ => false
  end.

(** [xs[i]] on a tuple. *)
Definition item {A} (xs : list A) (i : nat) : py A :=
  match nth_error xs i with
  | Some x => Ret x
  | None => Raise IndexError
  end.

End Py.
Export Py.

Notation "x <- m ;; k" := (bind m (fun x => k))
  (at level 61, m at next level, right associativity).

(** ** The [re] module *)

Module Re.

(** A character class is a predicate on code points. *)
Definition cls := N -> bool.

Definition lit (c : N) : cls := N.eqb c.               (* a literal character *)
Definition dot : cls := fun c => negb (c =? 10).       (* [.] without DOTALL *)
Definition digit : cls := isdecimal.                   (* [\d] *)
Definition space : cls := isspace.                     (* [\s] *)
Definition excl (c : N) : cls := fun x => negb (x =? c). (* [[^c]] *)
Definition range (lo hi : N) : cls := fun c => (lo <=? c) && (c <=? hi).
Definition union (a b : cls) : cls := fun c => a c || b c.

(** Patterns.  Quantifiers in the script only ever apply to one character
    class, except for the optional non-capturing group of the journal
    pattern; [Rep c lo hi greedy] is [c{lo,hi}] ([hi = None]: unbounded),
    lazy when [greedy] is false.  [Group i r] is the capturing group whose
    text is [match.groups()[i]]. *)
Inductive regex :=
| Eps
| Bos                                   (* [^] without flags *)
| Bol                                   (* [^] under re.MULTILINE *)
| Eol                                   (* [$] under re.MULTILINE *)
| Chr (c : cls)
| Rep (c : cls) (lo : nat) (hi : option nat) (greedy : bool)
| Seq (r1 r2 : regex)
| Group (i : nat) (r : regex)
| Opt (r : regex).                      (* [(?:r)?] *)

Definition seq (rs : list regex) : regex := fold_right Seq Eps rs.
Definition plus (c : cls) : regex := Rep c 1 None true.       (* [c+] *)
Definition star (c : cls) : regex := Rep c 0 None true.       (* [c*] *)
Definition plus_lazy (c : cls) : regex := Rep c 1 None false. (* [c+?] *)
Definition times (n : nat) (c : cls) : regex := Rep c n (Some n) true. (* [c{n}] *)
Definition opt_chr (c : cls) : regex := Rep c 0 (Some 1%nat) true.  (* [c?] *)

Definition groups := list (option str).

Fixpoint set_group (i : nat) (v : str) (g : groups) : groups :=
  match g, i with
  | [], _ => []
  | _ :: g', O => Some v :: g'
  | x :: g', S i' => x :: set_group i' v g'
  end.

(** The text consumed between two positions of the subject, given as the
    remaining input at each of them. *)
Definition consumed (s s' : str) : str := firstn (length s - length s') s.

Definition more (hi : option nat) : bool :=
  match hi with
  | Some O => false
  | _ => true
  end.

Definition dec (hi : option nat) : option nat := option_map pred hi.

Section Exec.
Context {R : Type}.

(** Lazy repetition: stop as soon as the rest of the pattern matches. *)
Fixpoint rep_lazy (c : cls) (lo : nat) (hi : option nat) (prev : option N)
    (s : str) (k : option N -> str -> option R) : option R :=
  let step :=
    match s with
    | x :: s' =>
      if more hi && c x then rep_lazy c (pred lo) (dec hi) (Some x) s' k else None
    | [] => None
    end in
  match lo with
  | O => match k prev s with
         | Some r => Some r
         | None => step
         end
  | S _ => step
  end.

(** Greedy repetition: take as many characters as possible, then give
    them back one at a time. *)
Fixpoint rep_greedy (c : cls) (lo : nat) (hi : option nat) (prev : option N)
    (s : str) (k : option N -> str -> option R) : option R :=
  let stop := match lo with O => k prev s | S _ => None end in
  match s with
  | x :: s' =>
    if more hi && c x then
      match rep_greedy c (pred lo) (dec hi) (Some x) s' k with
      | Some r => Some r
      | None => stop
      end
    else stop
  | [] => stop
  end.

(** The matcher, in continuation-passing style: [prev] is the character
    before the current position (none at the start of the subject), [s]
    the remaining input, [g] the groups set so far and [k] the rest of the
    pattern.  Alternatives are explored in the order of Python's engine. *)
Fixpoint exec (r : regex) (prev : option N) (s : str) (g : groups)
    (k : option N -> str -> groups -> option R) : option R :=
  match r with
  | Eps => k prev s g
  | Bos =>
    match prev with
    | None => k prev s g
    | Some _ => None
    end
  | Bol =>
    match prev with
    | None => k prev s g
    | Some p => if p =? 10 then k prev s g else None
    end
  | Eol =>
    match s with
    | [] => k prev s g
    | x :: _ => if x =? 10 then k prev s g else None
    end
  | Chr c =>
    match s with
    | x :: s' => if c x then k (Some x) s' g else None
    | [] => None
    end
  | Rep c lo hi greedy =>
    (if greedy then rep_greedy else rep_lazy) c lo hi prev s
      (fun p s' => k p s' g)
  | Seq r1 r2 => exec r1 prev s g (fun p s' g' => exec r2 p s' g' k)
  | Group i r1 =>
    exec r1 prev s g (fun p s' g' => k p s' (set_group i (consumed s s') g'))
  | Opt r1 =>
    match exec r1 prev s g k with
    | Some x => Some x
    | None => k prev s g
    end
  end.

End Exec.

(** A compiled pattern: the number of capturing groups and the
    expression. *)
Record pattern := Pattern { ngroups : nat; expr : regex }.

(** [pattern.match(s)] / [re.match(pattern, s)]: a match anchored at the
    start of [s]; the result is [match.groups()]. *)
Definition re_match (p : pattern) (s : str) : option groups :=
  exec (expr p) None s (repeat None (ngroups p)) (fun _ _ g => Some g).

(** [re.search(pattern, s)]: the first position at which the pattern
    matches. *)
Fixpoint search_from (p : pattern) (prev : option N) (s : str) : option groups :=
  match exec (expr p) prev s (repeat None (ngroups p)) (fun _ _ g => Some g) with
  | Some g => Some g
  | None =>
    match s with
    | x :: s' => search_from p (Some x) s'
    | [] => None
    end
  end.

Definition re_search (p : pattern) (s : str) : option groups :=
  search_from p None s.

Definition is_match (m : option groups) : bool :=
  match m with
  | Some _ => true
  | None => false
  end.

(** [re.split(r'\n+', s)]: the pieces between maximal runs of newlines. *)
Fixpoint split_newlines_go (in_sep : bool) (s : str) : list str :=
  match s with
  | [] => [[]]
  | c :: s' =>
    if c =? 10 then
      if in_sep then split_newlines_go true s'
      else [] :: split_newlines_go true s'
    else
      match split_newlines_go false s' with
      | t :: ts => (c :: t) :: ts
      | [] => [[c]]
      end
  end.

Definition split_newlines (s : str) : list str := split_newlines_go false s.

End Re.
Export Re.

(** ** The validator *)

(** A reference entry (class [Reference]).  [index] is [None] or an
    integer; [title], [source], [year], [volume], [issue] and [pages] hold
    [None] or a string; [type] is one of the keys of the pattern table, or
    [None] for the empty string the constructor puts there. *)
Inductive ref_type := journal | monograph | conference | dissertation | standard.

Record Reference := mkReference {
  raw_text : str;
  index : option N;
  authors : list str;
  title : option str;
  source : option str;
  year : option str;
  volume : option str;
  issue : option str;
  pages : option str;
  type : option ref_type;
  errors : list str;
  warnings : list str
}.

(** [Reference(raw_text)] *)
Definition Reference_init (raw : str) : Reference :=
  {| raw_text := raw; index := None; authors := []; title := Some [];
     source := Some []; year := None; volume := None; issue := None;
     pages := Some []; type := None; errors := []; warnings := [] |}.

Definition with_index (r : Reference) (i : option N) : Reference :=
  {| raw_text := raw_text r; index := i; authors := authors r;
     title := title r; source := source r; year := year r;
     volume := volume r; issue := issue r; pages := pages r;
     type := type r; errors := errors r; warnings := warnings r |}.

Definition with_type (r : Reference) (t : option ref_type) : Reference :=
  {| raw_text := raw_text r; index := index r; authors := authors r;
     title := title r; source := source r; year := year r;
     volume := volume r; issue := issue r; pages := pages r;
     type := t; errors := errors r; warnings := warnings r |}.

Definition with_errors (r : Reference) (es : list str) : Reference :=
  {| raw_text := raw_text r; index := index r; authors := authors r;
     title := title r; source := source r; year := year r;
     volume := volume r; issue := issue r; pages := pages r;
     type := type r; errors := es; warnings := warnings r |}.

(** *** The patterns of [ReferenceValidator.__init__] *)

Definition sp := star space.   (* [\s*] *)

(** [^\[(\d+)\]\s+(.+?)\.\s*(.+?)\[\d+\]\.\s*([^,]+?),\s*(\d{4})\s*(?:,\s*([^,]+?)\(([^)]+)\))?\s*:\s*(.+?)\.$] *)
Definition journal_re : pattern := Pattern 8 (seq
  [ Bol; Chr (lit (ch "[")); Group 0 (plus digit); Chr (lit (ch "]"));
    plus space; Group 1 (plus_lazy dot); Chr (lit (ch ".")); sp;
    Group 2 (plus_lazy dot);
    Chr (lit (ch "[")); plus digit; Chr (lit (ch "]")); Chr (lit (ch ".")); sp;
    Group 3 (plus_lazy (excl (ch ","))); Chr (lit (ch ",")); sp;
    Group 4 (times 4 digit); sp;
    Opt (seq [ Chr (lit (ch ",")); sp; Group 5 (plus_lazy (excl (ch ",")));
               Chr (lit (ch "(")); Group 6 (plus (excl (ch ")")));
               Chr (lit (ch ")")) ]);
    sp; Chr (lit (ch ":")); sp; Group 7 (plus_lazy dot);
    Chr (lit (ch ".")); Eol ]).

(** [^\[(\d+)\]\s+(.+?)\.\s*(.+?)\s*[M]\.\s*([^:]+?):\s*([^,]+?),\s*(\d{4})\.\s*(.+?)\.$] *)
Definition monograph_re : pattern := Pattern 7 (seq
  [ Bol; Chr (lit (ch "[")); Group 0 (plus digit); Chr (lit (ch "]"));
    plus space; Group 1 (plus_lazy dot); Chr (lit (ch ".")); sp;
    Group 2 (plus_lazy dot); sp;
    Chr (lit (ch "M")); Chr (lit (ch ".")); sp;
    Group 3 (plus_lazy (excl (ch ":"))); Chr (lit (ch ":")); sp;
    Group 4 (plus_lazy (excl (ch ","))); Chr (lit (ch ",")); sp;
    Group 5 (times 4 digit); Chr (lit (ch ".")); sp;
    Group 6 (plus_lazy dot); Chr (lit (ch ".")); Eol ]).

(** [^\[(\d+)\]\s+(.+?)\.\s*(.+?)\s*\[C\]//(.+?)\.\s*(.+?)\.\s*([^:]+?):\s*([^,]+?),\s*(\d{4})\s*:\s*(.+?)\.$] *)
Definition conference_re : pattern := Pattern 9 (seq
  [ Bol; Chr (lit (ch "[")); Group 0 (plus digit); Chr (lit (ch "]"));
    plus space; Group 1 (plus_lazy dot); Chr (lit (ch ".")); sp;
    Group 2 (plus_lazy dot); sp;
    Chr (lit (ch "[")); Chr (lit (ch "C")); Chr (lit (ch "]"));
    Chr (lit (ch "/")); Chr (lit (ch "/"));
    Group 3 (plus_lazy dot); Chr (lit (ch ".")); sp;
    Group 4 (plus_lazy dot); Chr (lit (ch ".")); sp;
    Group 5 (plus_lazy (excl (ch ":"))); Chr (lit (ch ":")); sp;
    Group 6 (plus_lazy (excl (ch ","))); Chr (lit (ch ",")); sp;
    Group 7 (times 4 digit); sp; Chr (lit (ch ":")); sp;
    Group 8 (plus_lazy dot); Chr (lit (ch ".")); Eol ]).

(** [^\[(\d+)\]\s+(.+?)\.\s*(.+?)\s*[D]\.\s*([^:]+?):\s*([^,]+?),\s*(\d{4})\.$] *)
Definition dissertation_re : pattern := Pattern 6 (seq
  [ Bol; Chr (lit (ch "[")); Group 0 (plus digit); Chr (lit (ch "]"));
    plus space; Group 1 (plus_lazy dot); Chr (lit (ch ".")); sp;
    Group 2 (plus_lazy dot); sp;
    Chr (lit (ch "D")); Chr (lit (ch ".")); sp;
    Group 3 (plus_lazy (excl (ch ":"))); Chr (lit (ch ":")); sp;
    Group 4 (plus_lazy (excl (ch ","))); Chr (lit (ch ",")); sp;
    Group 5 (times 4 digit); Chr (lit (ch ".")); Eol ]).

(** The em dash of the standard pattern, U+2014. *)
Definition em_dash : N := 8212.

(** [^\[(\d+)\]\s+(.+?)\.\s*(.+?)—(\d{4}),\s*(.+?)\s*[S]\.\s*([^:]+?):\s*([^,]+?),\s*(\d{4})\.\s*(.+?)\.$] *)
Definition standard_re : pattern := Pattern 9 (seq
  [ Bol; Chr (lit (ch "[")); Group 0 (plus digit); Chr (lit (ch "]"));
    plus space; Group 1 (plus_lazy dot); Chr (lit (ch ".")); sp;
    Group 2 (plus_lazy dot); Chr (lit em_dash);
    Group 3 (times 4 digit); Chr (lit (ch ",")); sp;
    Group 4 (plus_lazy dot); sp;
    Chr (lit (ch "S")); Chr (lit (ch ".")); sp;
    Group 5 (plus_lazy (excl (ch ":"))); Chr (lit (ch ":")); sp;
    Group 6 (plus_lazy (excl (ch ","))); Chr (lit (ch ",")); sp;
    Group 7 (times 4 digit); Chr (lit (ch ".")); sp;
    Group 8 (plus_lazy dot); Chr (lit (ch ".")); Eol ]).

(** [self.patterns], in insertion order. *)
Definition patterns : list (ref_type * pattern) :=
  [ (journal, journal_re); (monograph, monograph_re);
    (conference, conference_re); (dissertation, dissertation_re);
    (standard, standard_re) ].

(** The patterns given inline to [re.match] and [re.search]. *)
Definition index_re : pattern :=                   (* [^\[(\d+)\]] *)
  Pattern 1 (seq [Bos; Chr (lit (ch "[")); Group 0 (plus digit); Chr (lit (ch "]"))]).
Definition year_re : pattern :=                    (* [\d{4}] *)
  Pattern 0 (times 4 digit).
Definition pages_re : pattern :=                   (* [\d+-?\d*] *)
  Pattern 0 (seq [plus digit; opt_chr (lit (ch "-")); star digit]).
Definition cjk_re : pattern :=                     (* [[\u4e00-\u9fff]] *)
  Pattern 0 (Chr (range 19968 40959)).
Definition latin_re : pattern :=                   (* [[a-zA-Z]] *)
  Pattern 0 (Chr (union (range (ch "a") (ch "z")) (range (ch "A") (ch "Z")))).

(** *** [_parse_authors] *)

(** The marker appended to a truncated author list: ['等']. *)
Definition et_al : str := u "等".

Definition _parse_authors (authors_str : option str) : py (list str) :=
  match authors_str with
  | None => Raise TypeError
  | Some authors_str =>
    if is_match (re_search cjk_re authors_str) then
      if has_char (ch ",") authors_str then
        let authors := split (ch ",") authors_str in
        if 3 <? len authors then Ret (firstn 3 authors ++ [et_al])
        else Ret authors
      else Ret [authors_str]
    else Ret [authors_str]
  end.

(** *** [_extract_fields]

    Only the journal and the monograph branch exist.  The assignment
    [self.publisher = groups[4]] of the monograph branch writes an
    attribute of the validator that nothing reads; it is kept only as the
    tuple access it performs. *)
Definition or_none (v : option str) : option str := if truthy v then v else None.
Definition or_empty (v : option str) : option str := if truthy v then v else Some [].

Definition _extract_fields (ref : Reference) (groups : groups) : py Reference :=
  match type ref with
  | Some journal =>
    g1 <- item groups 1 ;;
    a <- _parse_authors g1 ;;
    g2 <- item groups 2 ;;
    g3 <- item groups 3 ;;
    g4 <- item groups 4 ;;
    g5 <- item groups 5 ;;
    g6 <- item groups 6 ;;
    g7 <- item groups 7 ;;
    Ret {| raw_text := raw_text ref; index := index ref; authors := a;
           title := g2; source := g3; year := g4;
           volume := or_none g5; issue := or_none g6; pages := or_empty g7;
           type := type ref; errors := errors ref; warnings := warnings ref |}
  | Some monograph =>
    g1 <- item groups 1 ;;
    a <- _parse_authors g1 ;;
    g2 <- item groups 2 ;;
    g3 <- item groups 3 ;;
    _publisher <- item groups 4 ;;
    g5 <- item groups 5 ;;
    g6 <- item groups 6 ;;
    Ret {| raw_text := raw_text ref; index := index ref; authors := a;
           title := g2; source := g3; year := g5;
           volume := volume ref; issue := issue ref; pages := g6;
           type := type ref; errors := errors ref; warnings := warnings ref |}
  | _ => Ret ref
  end.

(** *** [parse_reference] *)

Definition msg_unknown_type : str := u "无法识别文献类型".

(** The loop over [self.patterns.items()]: the first pattern that matches
    sets the type, extracts the fields and leaves the loop. *)
Fixpoint try_patterns (ps : list (ref_type * pattern)) (raw_text : str)
    (ref : Reference) : py Reference :=
  match ps with
  | [] => Ret ref
  | (ref_type, pat) :: ps' =>
    match re_match pat raw_text with
    | Some m => _extract_fields (with_type ref (Some ref_type)) m
    | None => try_patterns ps' raw_text ref
    end
  end.

Definition parse_reference (raw_text : str) : py Reference :=
  let ref := Reference_init raw_text in
  let raw_text := strip raw_text in
  ref <- match re_match index_re raw_text with
         | Some g =>
           g1 <- item g 0 ;;
           i <- int g1 ;;
           Ret (with_index ref (Some i))
         | None => Ret ref
         end ;;
  ref <- try_patterns patterns raw_text ref ;;
  match type ref with
  | None => Ret (with_errors ref (errors ref ++ [msg_unknown_type]))
  | Some _ => Ret ref
  end.

(** *** [validate_reference]

    [references] is [self.references] at the time of the call.  The body
    is five checks in a row, each adding at most one message to [errors];
    they are the five functions below, in the order of the source.  The
    [print] of the type name writes to standard output only and is left
    out. *)
Definition msg_no_index : str := u "缺少序号".
Definition msg_sequence (expected : N) : str :=
  u "序号不连续，应为" ++ str_of_int expected.
Definition msg_no_authors : str := u "缺少作者".
Definition msg_et_al : str := u "超过3人作者应加'等'字".
Definition msg_no_title : str := u "缺少标题".
Definition msg_long_title (n : N) : str :=
  u "标题过长：" ++ str_of_int n ++ u "字符".
Definition msg_no_year : str := u "缺少出版年份".
Definition msg_year_format (y : str) : str := u "年份格式错误：" ++ y.

Definition check_index (references : list Reference) (ref : Reference) : list str :=
  match index ref with
  | None => [msg_no_index]
  | Some i =>
    if negb (i =? len references + 1) then [msg_sequence (len references + 1)]
    else []
  end.

Definition check_authors (ref : Reference) : list str :=
  match authors ref with
  | [] => [msg_no_authors]
  | _ =>
    if (3 <? len (authors ref)) && negb (contains et_al (authors ref))
    then [msg_et_al] else []
  end.

Definition check_title (ref : Reference) : list str :=
  match title ref with
  | Some (c :: t) =>
    if 100 <? len (c :: t) then [msg_long_title (len (c :: t))] else []
  | _ => [msg_no_title]
  end.

Definition check_type (ref : Reference) : list str :=
  match type ref with
  | None => [msg_unknown_type]
  | Some _ => []
  end.

Definition check_year (ref : Reference) : list str :=
  match year ref with
  | Some (c :: y) =>
    if negb (is_match (re_match year_re (c :: y))) then [msg_year_format (c :: y)]
    else []
  | _ => [msg_no_year]
  end.

Definition validate_reference (references : list Reference) (ref : Reference)
    : list str :=
  check_index references ref ++ check_authors ref ++ check_title ref
  ++ check_type ref ++ check_year ref.

(** *** [check_common_problems] *)

Definition msg_abbreviate : str := u "期刊名称建议使用缩写".
Definition msg_pages : str :=
  u "页码格式应为" ++ [34] ++ u "数字-数字" ++ [34] ++ u "或" ++ [34] ++ u "数字" ++ [34].
Definition msg_latin : str := u "外文作者姓名应姓前名后".

Definition type_is (ref : Reference) (t : ref_type) : bool :=
  match type ref, t with
  | Some journal, journal | Some monograph, monograph
  | Some conference, conference | Some dissertation, dissertation
  | Some standard, standard => true
  | _, _ => false
  end.

Definition warn_source (ref : Reference) : list str :=
  if type_is ref journal then
    match source ref with
    | Some (c :: s) => if 20 <? len (c :: s) then [msg_abbreviate] else []
    | _ => []
    end
  else [].

Definition warn_pages (ref : Reference) : list str :=
  match pages ref with
  | Some (c :: p) =>
    if negb (is_match (re_match pages_re (c :: p))) then [msg_pages] else []
  | _ => []
  end.

Definition warn_latin (ref : Reference) : list str :=
  match authors ref with
  | [] => []
  | _ =>
    if is_match (re_search latin_re (join (u " ") (authors ref)))
    then [msg_latin] else []
  end.

Definition check_common_problems (ref : Reference) : list str :=
  warn_source ref ++ warn_pages ref ++ warn_latin ref.

(** *** [validate_references] *)

(** The dictionary returned by [validate_references]; its keys ['errors']
    and ['warnings'] are the fields [all_errors] and [all_warnings]. *)
Record Report := mkReport {
  valid : bool;
  total_references : N;
  all_errors : list str;
  all_warnings : list str;
  references : list Reference
}.

(** The prefix [f"参考文献{ref.index}: "] of every reported message. *)
Definition tag (ref : Reference) (m : str) : str :=
  u "参考文献" ++ str_of_opt_int (index ref) ++ u ": " ++ m.

(** The state of the loop: [self.references], [all_errors],
    [all_warnings].  The test [if ref:] always holds, [parse_reference]
    returns an object; the record is appended to [self.references] before
    it is validated. *)
Definition loop_state : Type := list Reference * list str * list str.

Definition loop_body (st : loop_state) (entry : str) : py loop_state :=
  let '(refs, errs, warns) := st in
  let entry := strip entry in
  match entry with
  | [] => Ret st
  | _ =>
    ref <- parse_reference entry ;;
    let refs := refs ++ [ref] in
    let errors := validate_reference refs ref in
    let errs := match errors with
                | [] => errs
                | _ => errs ++ map (tag ref) errors
                end in
    let warnings := check_common_problems ref in
    let warns := match warnings with
                 | [] => warns
                 | _ => warns ++ map (tag ref) warnings
                 end in
    Ret (refs, errs, warns)
  end.

Fixpoint loop (st : loop_state) (entries : list str) : py loop_state :=
  match entries with
  | [] => Ret st
  | entry :: rest => st' <- loop_body st entry ;; loop st' rest
  end.

Definition validate_references (references_text : str) : py Report :=
  let ref_entries := split_newlines (strip references_text) in
  st <- loop ([], [], []) ref_entries ;;
  let '(refs, errs, warns) := st in
  Ret {| valid := len errs =? 0;
         total_references := len refs;
         all_errors := errs;
         all_warnings := warns;
         references := refs |}.

(** ** The command line

    [generate_format_examples], [read_references_from_file] and [main].
    Standard output is the list of the strings given to [print], one
    element for each call; the file system is the two functions
    [path_exists] and [read_file] that [main] is given. *)

(** The list [examples] of [generate_format_examples]. *)
Definition format_examples : list str :=
  [ u "期刊论文：[1] 张三. AI赋能教育的实践探索[J]. 计算机教育, 2023, 20(5): 12-18.";
    u "期刊论文：[2] Smith J, Johnson M. AI in Education[J]. J. Educ. Tech., 2023, 15(2): 45-52.";
    u "专著：[3] 李四. 人工智能与教学改革[M]. 北京: 高等教育出版社, 2022. 120-135.";
    u "专著：[4] Wang L. AI in Modern Education[M]. New York: Springer, 2023. 88-102.";
    u "会议论文：[5] 王五. 大模型驱动的教学变革[C]//李明. 计算机教育创新文集. 北京: 清华大学出版社, 2023: 234-245.";
    u "会议论文：[6] Chen X. AI Applications in Learning[C]//Zhang Y. Advances in Educational Technology. Singapore: World Scientific, 2023: 156-168.";
    u "学位论文：[7] 赵六. AI赋能计算机课程思政建设研究[D]. 北京: 北京大学, 2023.";
    u "学位论文：[8] Davis K. AI Ethics in Higher Education[D]. Stanford: Stanford University, 2023.";
    u "标准：[9] 国家质量监督检验检疫总局. GB/T 7714—2015, 信息与文献 参考文献著录规则[S]. 北京: 中国标准出版社, 2015: 10-15." ].

Definition generate_format_examples : str :=
  u "=== 正确格式示例 ===" ++ [10] ++ join [10] format_examples.

(** [type_names.get(ref.type, ref.type)] for a type that is set. *)
Definition type_name (t : ref_type) : str :=
  match t with
  | journal => u "期刊论文"
  | monograph => u "专著"
  | conference => u "会议论文"
  | dissertation => u "学位论文"
  | standard => u "标准"
  end.

(** What [validate_reference] prints for a record. *)
Definition print_type (ref : Reference) : list str :=
  match type ref with
  | None => []
  | Some t => [u "  类型：" ++ type_name t]
  end.

(** The loop of [validate_references] together with what it prints: one
    run of the body prints the type line of the record it appended, if it
    appended one. *)
Definition loop_refs (st : loop_state) : list Reference := fst (fst st).

Fixpoint loop_io (out : list str) (st : loop_state) (entries : list str)
    : list str * py loop_state :=
  match entries with
  | [] => (out, Ret st)
  | entry :: rest =>
    match loop_body st entry with
    | Ret st' =>
      let appended := skipn (length (loop_refs st)) (loop_refs st') in
      loop_io (out ++ flat_map print_type appended) st' rest
    | Raise e => (out, Raise e)
    end
  end.

Definition validate_references_io (references_text : str) : list str * py Report :=
  let ref_entries := split_newlines (strip references_text) in
  let (out, st) := loop_io [] ([], [], []) ref_entries in
  (out,
   st <- st ;;
   let '(refs, errs, warns) := st in
   Ret {| valid := len errs =? 0;
          total_references := len refs;
          all_errors := errs;
          all_warnings := warns;
          references := refs |}).

(** How a run of [main] ends: it returns, it leaves through
    [sys.exit(status)], or an exception escapes. *)
Inductive outcome := Returns | Exits (status : N) | Uncaught (e : exn).

Definition usage : list str :=
  [ u "使用方法:";
    u "  python validate_references.py --input <参考文献文本文件>";
    u "  python validate_references.py --text " ++ [34] ++ u "<参考文献内容>" ++ [34];
    [10] ++ u "示例：";
    u "  python validate_references.py --text " ++ [34] ++ u "[1] 张三. AI教育研究[J]. 计算机教育, 2023, 20(5): 12-18." ++ [34] ].

Definition usage_input : str := u "使用方法: python validate_references.py --input <参考文献文本文件>".
Definition usage_text : str := u "使用方法: python validate_references.py --text " ++ [34] ++ u "<参考文献内容>" ++ [34].
Definition msg_bad_flag : str := u "无效参数。使用 --input 或 --text".
Definition msg_no_file (file_path : str) : str := u "文件不存在: " ++ file_path.

(** The lines [main] prints after validation. *)
Definition report_lines (result : Report) : list str :=
  [ u "=== 参考文献验证结果 ===";
    u "总参考文献数: " ++ str_of_int (total_references result);
    [] ]
  ++ [ if valid result then u "✓ 所有参考文献格式正确"
       else u "✗ 存在格式错误" ]
  ++ match all_errors result with
     | [] => []
     | es => ([10] ++ u "=== 错误信息 ===")
             :: map (fun error => u "  ❌ " ++ error) es
     end
  ++ match all_warnings result with
     | [] => []
     | ws => ([10] ++ u "=== 警告信息 ===")
             :: map (fun warning => u "  ⚠️  " ++ warning) ws
     end
  ++ [ [10] ++ generate_format_examples ].

Section CommandLine.

Variable path_exists : str -> bool.     (* [os.path.exists] *)
Variable read_file : str -> str + str.  (* the text of a file, or [str(e)] of
                                           the exception reading it raised *)

Definition read_references_from_file (file_path : str) : str + str :=
  match read_file file_path with
  | inl text => inl text
  | inr e => inr (u "读取文件失败：" ++ e)
  end.

(** The part of [main] after the arguments are read. *)
Definition validate_and_report (references_text : str) : list str * outcome :=
  let (out, result) := validate_references_io references_text in
  match result with
  | Ret result => (out ++ report_lines result, Returns)
  | Raise e => (out, Uncaught e)
  end.

(** [main], with [argv] for [sys.argv]. *)
Definition main (argv : list str) : list str * outcome :=
  if len argv <? 2 then (usage, Exits 1)
  else
    let flag := nth 1 argv [] in
    if str_eqb flag (u "--input") then
      if negb (len argv =? 3) then ([usage_input], Exits 1)
      else
        let file_path := nth 2 argv [] in
        if negb (path_exists file_path) then ([msg_no_file file_path], Exits 1)
        else
          match read_references_from_file file_path with
          | inl references_text => validate_and_report references_text
          | inr e => ([e], Exits 1)
          end
    else if str_eqb flag (u "--text") then
      if negb (len argv =? 3) then ([usage_text], Exits 1)
      else validate_and_report (nth 2 argv [])
    else ([msg_bad_flag], Exits 1).

End CommandLine.

(** * Vocabulary of the properties *)

(** ** Runs of the matcher

    [matches r s g s' g'] over-approximates the runs of [exec]: the
    pattern [r] can consume the text between [s] and [s'], turning the
    groups [g] into [g'].  Anchors are not tracked. *)

Definition within (hi : option nat) (n : nat) : Prop :=
  match hi with
  | Some h => (n <= h)%nat
  | None => True
  end.

Fixpoint matches (r : regex) (s : str) (g : groups) (s' : str) (g' : groups)
    : Prop :=
  match r with
  | Eps | Bos | Bol | Eol => s' = s /\ g' = g
  | Chr c => exists x, s = x :: s' /\ c x = true /\ g' = g
  | Rep c lo hi _ =>
    exists x, s = x ++ s' /\ forallb c x = true /\ (lo <= length x)%nat
              /\ within hi (length x) /\ g' = g
  | Seq r1 r2 =>
    exists sm gm, matches r1 s g sm gm /\ matches r2 sm gm s' g'
  | Group i r1 =>
    exists gm, matches r1 s g s' gm /\ g' = set_group i (consumed s s') gm
  | Opt r1 => matches r1 s g s' g' \/ (s' = s /\ g' = g)
  end.

(** ** Shapes of strings and records *)

(** A string of exactly [n] decimal digits. *)
Definition digits (n : nat) (s : str) : Prop :=
  length s = n /\ forallb isdecimal s = true.

Definition nonemptyb (s : str) : bool :=
  match s with
  | [] => false
  | _ => true
  end.

(** The ideographs of [[\u4e00-\u9fff]] and the letters of [[a-zA-Z]]. *)
Definition is_cjk (c : N) : bool := (19968 <=? c) && (c <=? 40959).




(** No field beyond what the constructor put there. *)
Definition unpopulated (r : Reference) : Prop :=
  authors r = [] /\ title r = Some [] /\ source r = Some [] /\ year r = None
  /\ volume r = None /\ issue r = None /\ pages r = Some [].

(** The fields [_extract_fields] fills: an author list from
    [_parse_authors], a title, a source and a four-digit year. *)
Definition populated (r : Reference) : Prop :=
  exists a t src y,
    _parse_authors (Some a) = Ret (authors r) /\ title r = Some t
    /\ source r = Some src /\ year r = Some y /\ digits 4 y.

(** None of the five patterns matches. *)
Definition no_match (s : str) : Prop :=
  Forall (fun p => re_match (snd p) s = None) patterns.

(** What [parse_reference raw] can return. *)
Definition parsed_shape (raw : str) (r : Reference) : Prop :=
  raw_text r = raw /\ warnings r = [] /\
  match type r with
  | None => unpopulated r /\ errors r = [msg_unknown_type] /\ no_match (strip raw)
  | Some journal => populated r /\ re_match journal_re (strip raw) <> None
  | Some monograph => populated r /\ re_match monograph_re (strip raw) <> None
  | Some conference => unpopulated r /\ re_match conference_re (strip raw) <> None
  | Some dissertation => unpopulated r /\ re_match dissertation_re (strip raw) <> None
  | Some standard => unpopulated r /\ re_match standard_re (strip raw) <> None
  end.

(** ** The report, record by record *)

(** The entries the loop of [validate_references] does not skip. *)
Definition entries (text : str) : list str :=
  filter nonemptyb (map strip (split_newlines (strip text))).

(** The errors reported for the records [new] when [seen] came before
    them: each record is validated against the list that already holds
    it. *)
Fixpoint errors_of (seen new : list Reference) : list str :=
  match new with
  | [] => []
  | r :: rest =>
    map (tag r) (validate_reference (seen ++ [r]) r)
    ++ errors_of (seen ++ [r]) rest
  end.

Definition warnings_of (rs : list Reference) : list str :=
  flat_map (fun r => map (tag r) (check_common_problems r)) rs.

(** The four errors every unclassified record gets after the check of its
    number. *)
Definition unclassified_rest : list str :=
  [msg_no_authors; msg_no_title; msg_unknown_type; msg_no_year].

(** ** Shapes of entries *)

(** [s] does not begin with a character of the class [c]. *)
Definition stops (c : cls) (s : str) : Prop :=
  match s with
  | [] => True
  | y :: _ => c y = false
  end.

(** The text [[d]rest]. *)
Definition bracketed (d rest : str) : str := ch "[" :: d ++ ch "]" :: rest.

Definition no_newline (s : str) : Prop := forallb dot s = true.
Definition blank (s : str) : Prop := forallb isspace s = true.
Definition without (c : N) (s : str) : Prop := forallb (excl c) s = true.

(** The pieces of an entry that [journal_re] matches, in the order of the
    pattern: the captured fields, the bracketed number that stands where
    the format has the type marker, the runs of white space between them
    and what follows the final full stop.  The optional part holds the
    white space after its comma, the volume and the issue. *)
Record journal_parts := JournalParts {
  j_number : str; j_gap1 : str; j_authors : str; j_gap2 : str; j_title : str;
  j_marker : str; j_gap3 : str; j_source : str; j_gap4 : str; j_year : str;
  j_gap5 : str; j_volume : option (str * str * str); j_gap6 : str;
  j_gap7 : str; j_pages : str; j_tail : str
}.

Definition volume_text (v : option (str * str * str)) : str :=
  match v with
  | Some (gap, vol, iss) => [ch ","] ++ gap ++ vol ++ [ch "("] ++ iss ++ [ch ")"]
  | None => []
  end.

(** The entry written out again from its pieces. *)
Definition journal_text (p : journal_parts) : str :=
  [ch "["] ++ j_number p ++ [ch "]"] ++ j_gap1 p ++ j_authors p ++ [ch "."]
  ++ j_gap2 p ++ j_title p ++ [ch "["] ++ j_marker p ++ [ch "]"; ch "."]
  ++ j_gap3 p ++ j_source p ++ [ch ","] ++ j_gap4 p ++ j_year p ++ j_gap5 p
  ++ volume_text (j_volume p) ++ j_gap6 p ++ [ch ":"] ++ j_gap7 p
  ++ j_pages p ++ [ch "."] ++ j_tail p.

Definition volume_wf (v : option (str * str * str)) : Prop :=
  match v with
  | Some (gap, vol, iss) =>
    blank gap /\ vol <> [] /\ without (ch ",") vol /\ iss <> [] /\ without (ch ")") iss
  | None => True
  end.

(** What the character classes and quantifiers of [journal_re] say about
    the pieces. *)
Definition journal_wf (p : journal_parts) : Prop :=
  (j_number p <> [] /\ forallb isdecimal (j_number p) = true)
  /\ (j_gap1 p <> [] /\ blank (j_gap1 p))
  /\ (j_authors p <> [] /\ no_newline (j_authors p))
  /\ blank (j_gap2 p)
  /\ (j_title p <> [] /\ no_newline (j_title p))
  /\ (j_marker p <> [] /\ forallb isdecimal (j_marker p) = true)
  /\ blank (j_gap3 p)
  /\ (j_source p <> [] /\ without (ch ",") (j_source p))
  /\ blank (j_gap4 p)
  /\ digits 4 (j_year p)
  /\ blank (j_gap5 p)
  /\ volume_wf (j_volume p)
  /\ blank (j_gap6 p) /\ blank (j_gap7 p)
  /\ (j_pages p <> [] /\ no_newline (j_pages p)).

(** [match.groups()] for an entry with these pieces. *)
Definition journal_groups_of (p : journal_parts) : groups :=
  [ Some (j_number p); Some (j_authors p); Some (j_title p); Some (j_source p);
    Some (j_year p);
    match j_volume p with Some (_, vol, _) => Some vol | None => None end;
    match j_volume p with Some (_, _, iss) => Some iss | None => None end;
    Some (j_pages p) ].

(** The same for [monograph_re]. *)
Record monograph_parts := MonographParts {
  m_number : str; m_gap1 : str; m_authors : str; m_gap2 : str; m_title : str;
  m_gap3 : str; m_gap4 : str; m_place : str; m_gap5 : str; m_publisher : str;
  m_gap6 : str; m_year : str; m_gap7 : str; m_pages : str; m_tail : str
}.

Definition monograph_text (p : monograph_parts) : str :=
  [ch "["] ++ m_number p ++ [ch "]"] ++ m_gap1 p ++ m_authors p ++ [ch "."]
  ++ m_gap2 p ++ m_title p ++ m_gap3 p ++ [ch "M"; ch "."] ++ m_gap4 p
  ++ m_place p ++ [ch ":"] ++ m_gap5 p ++ m_publisher p ++ [ch ","]
  ++ m_gap6 p ++ m_year p ++ [ch "."] ++ m_gap7 p ++ m_pages p ++ [ch "."]
  ++ m_tail p.

Definition monograph_wf (p : monograph_parts) : Prop :=
  (m_number p <> [] /\ forallb isdecimal (m_number p) = true)
  /\ (m_gap1 p <> [] /\ blank (m_gap1 p))
  /\ (m_authors p <> [] /\ no_newline (m_authors p))
  /\ blank (m_gap2 p)
  /\ (m_title p <> [] /\ no_newline (m_title p))
  /\ blank (m_gap3 p) /\ blank (m_gap4 p)
  /\ (m_place p <> [] /\ without (ch ":") (m_place p))
  /\ blank (m_gap5 p)
  /\ (m_publisher p <> [] /\ without (ch ",") (m_publisher p))
  /\ blank (m_gap6 p)
  /\ digits 4 (m_year p)
  /\ blank (m_gap7 p)
  /\ (m_pages p <> [] /\ no_newline (m_pages p)).

Definition monograph_groups_of (p : monograph_parts) : groups :=
  [ Some (m_number p); Some (m_authors p); Some (m_title p); Some (m_place p);
    Some (m_publisher p); Some (m_year p); Some (m_pages p) ].

(** ** The parser in closed form *)

(** The number [parse_reference] reads from the stripped entry. *)
Definition index_of (s : str) : option N :=
  match re_match index_re s with
  | Some (Some d :: _) => Some (int_digits d)
  | _ => None
  end.

(** The entries whose number [int] refuses: the stripped entry starts
    with a bracketed run of more than [max_str_digits] digits. *)
Definition number_too_long (raw : str) : bool :=
  match re_match index_re (strip raw) with
  | Some (Some d :: _) => max_str_digits <? len d
  | _ => false
  end.

(** The entries before the first one whose number [int] refuses. *)
Fixpoint short_prefix (es : list str) : list str :=
  match es with
  | [] => []
  | e :: es' => if number_too_long e then [] else e :: short_prefix es'
  end.

(** The key of the first pattern of the table that matches. *)
Definition first_match (s : str) : option ref_type :=
  option_map fst (find (fun p => is_match (re_match (snd p) s)) patterns).

(** The record of a journal entry with pieces [p] and author list [l];
    the same for a monograph, whose [source] is the place of publication
    and whose publisher is not kept; and the record of an entry of any
    other type, or of none. *)
Definition journal_record (raw : str) (p : journal_parts) (l : list str) : Reference :=
  {| raw_text := raw; index := Some (int_digits (j_number p)); authors := l;
     title := Some (j_title p); source := Some (j_source p);
     year := Some (j_year p);
     volume := match j_volume p with Some (_, vol, _) => Some vol | None => None end;
     issue := match j_volume p with Some (_, _, iss) => Some iss | None => None end;
     pages := Some (j_pages p); type := Some journal; errors := []; warnings := [] |}.

Definition monograph_record (raw : str) (p : monograph_parts) (l : list str) : Reference :=
  {| raw_text := raw; index := Some (int_digits (m_number p)); authors := l;
     title := Some (m_title p); source := Some (m_place p);
     year := Some (m_year p); volume := None; issue := None;
     pages := Some (m_pages p); type := Some monograph; errors := []; warnings := [] |}.

Definition bare_record (raw : str) (t : option ref_type) : Reference :=
  {| raw_text := raw; index := index_of (strip raw); authors := [];
     title := Some []; source := Some []; year := None; volume := None;
     issue := None; pages := Some []; type := t;
     errors := match t with None => [msg_unknown_type] | Some _ => [] end;
     warnings := [] |}.

(** [r] with another [raw_text]. *)
Definition with_raw_text (r : Reference) (raw : str) : Reference :=
  {| raw_text := raw; index := index r; authors := authors r;
     title := title r; source := source r; year := year r;
     volume := volume r; issue := issue r; pages := pages r;
     type := type r; errors := errors r; warnings := warnings r |}.

(** The errors of a parsed record after the check of its number, by
    kind. *)
Definition kind_errors (r : Reference) : list str :=
  match type r with
  | None => unclassified_rest
  | Some journal | Some monograph => check_title r
  | Some _ => [msg_no_authors; msg_no_title; msg_no_year]
  end.

(** ** The report in closed form *)

Definition parses_to (e : str) (r : Reference) : Prop := parse_reference e = Ret r.

(** The report on the records [refs]. *)
Definition report_of (refs : list Reference) : Report :=
  {| valid := len (errors_of [] refs) =? 0;
     total_references := len refs;
     all_errors := errors_of [] refs;
     all_warnings := warnings_of refs;
     references := refs |}.

(** ** The command line *)

Definition flag_input : str := u "--input".
Definition flag_text : str := u "--text".

(** The text that [main] gets as far as validating, if any: the argument
    of [--text], or the content of the file named after [--input] when it
    exists and can be read. *)
Definition validated_text (path_exists : str -> bool)
    (read_file : str -> str + str) (argv : list str) : option str :=
  match argv with
  | [_; flag; arg] =>
    if str_eqb flag flag_input then
      if path_exists arg then
        match read_file arg with
        | inl text => Some text
        | inr _ => None
        end
      else None
    else if str_eqb flag flag_text then Some arg
    else None
  | _ => None
  end.

(** The entry of a format example: what follows the label and its full
    width colon. *)
Fixpoint after_label (e : str) : str :=
  match e with
  | [] => []
  | c :: e' => if c =? 65306 then e' else after_label e'
  end.

(** ** Inputs *)

Definition newline : str := [10].

(** The first format example of [generate_format_examples], also the
    scenario of the design document. *)
Definition journal_example : str :=
  u "[1] 张三. AI赋能教育的实践探索[J]. 计算机教育, 2023, 20(5): 12-18.".

(** The fifth format example of [generate_format_examples]. *)
Definition conference_example : str :=
  u "[5] 王五. 大模型驱动的教学变革[C]//李明. 计算机教育创新文集. 北京: 清华大学出版社, 2023: 234-245.".

(** A dissertation and a standard in the shape [dissertation_re] and
    [standard_re] accept: the type letter directly before the full
    stop. *)
Definition dissertation_entry : str :=
  u "[7] 赵六. AI赋能计算机课程思政建设研究D. 北京: 北京大学, 2023.".

Definition standard_entry : str :=
  u "[9] 国家质量监督检验检疫总局. GB/T 7714—2015, 信息与文献 参考文献著录规则S. 北京: 中国标准出版社, 2015. 10-15.".

(** Three entries numbered 1, 2 and 4: in the documented journal format,
    and in the shape [journal_re] accepts (a bracketed number where the
    format has [[J]]). *)
Definition skipping_batch : str :=
  join newline
    [ u "[1] 张三. AI赋能教育的实践探索[J]. 计算机教育, 2023, 20(5): 12-18.";
      u "[2] 李四. 大模型驱动的教学变革[J]. 计算机教育, 2023, 20(6): 19-25.";
      u "[4] 王五. 人工智能与教学改革[J]. 计算机教育, 2023, 20(7): 26-31." ].

Definition skipping_batch_accepted : str :=
  join newline
    [ u "[1] 张三. AI赋能教育的实践探索[1]. 计算机教育, 2023, 20(5): 12-18.";
      u "[2] 李四. 大模型驱动的教学变革[1]. 计算机教育, 2023, 20(6): 19-25.";
      u "[4] 王五. 人工智能与教学改革[1]. 计算机教育, 2023, 20(7): 26-31." ].

(** A line that is no reference at all. *)
Definition url_line : str := u "https://example.com/references.html".

(** An entry whose number has one digit more than [int] converts. *)
Definition long_number_entry : str :=
  bracketed (repeat (ch "1") 4301) (u " x").

(** Four Chinese authors and no marker, in the shape [journal_re] accepts
    and in the documented format. *)
Definition four_authors_entry : str :=
  u "[1] 张三,李四,王五,赵六. AI赋能教育的实践探索[1]. 计算机教育, 2023, 20(5): 12-18.".

Definition four_authors_documented : str :=
  u "[1] 张三,李四,王五,赵六. AI赋能教育的实践探索[J]. 计算机教育, 2023, 20(5): 12-18.".

(** A journal entry with a title of 101 characters.  It is numbered 2
    because a one-entry batch is compared with that number. *)
Definition long_title : str := repeat (ch "A") 101.

Definition long_title_entry : str :=
  u "[2] 张三. " ++ long_title ++ u "[1]. 计算机教育, 2023, 20(5): 12-18.".






(** A line that is no reference but starts with a number; an entry that
    both [journal_re] and [monograph_re] match; a monograph entry; a batch
    that passes, its entries numbered from 2; and a batch of two entries
    with blank lines and white space around them. *)
Definition numbered_url : str := u "  [12] https://example.com/references.html".

Definition journal_and_monograph : str :=
  u "[2] 李四. 教学改革M. 北京: 高等教育出版社, 2021. 见[1]. 计算机教育, 2022: 12-18.".

Definition monograph_entry : str :=
  u "[3] 李四. 人工智能与教学改革M. 北京: 高等教育出版社, 2022. 120-135.".

Definition valid_batch : str :=
  join [10]
    [ u "[2] 张三. AI赋能教育的实践探索[1]. 计算机教育, 2023, 20(5): 12-18.";
      u "[3] 李四. 人工智能与教学改革M. 北京: 高等教育出版社, 2022. 120-135." ].

Definition spaced_batch : str :=
  [10; 32] ++ join [10; 32; 10; 10; 9] [journal_example; conference_example]
  ++ [32; 10].

(** * Properties *)

(** ** Tactics *)

Ltac break_matches :=
  repeat match goal with
  | H : exists _, _ |- _ => destruct H
  | H : _ /\ _ |- _ => destruct H
  | H : _ \/ _ |- _ => destruct H
  end.

(** Two messages that start with different characters are different. *)
Ltac msg_neq H :=
  apply (f_equal (@hd_error N)) in H; lazy in H; discriminate H.

Ltac split_in H :=
  repeat match type of H with
  | In _ (_ ++ _) => apply in_app_or in H; destruct H as [H|H]
  end.

Ltac case_in H :=
  repeat match type of H with
  | In _ (match ?x with _ => _ end) => destruct x eqn:?
  | In _ (if ?x then _ else _) => destruct x eqn:?
  | In _ [] => destruct H
  | In _ (_ :: _) => destruct H as [H|H]
  end.


(** ** The matcher *)

Lemma within_step hi n : more hi = true -> within (dec hi) n -> within hi (S n).
Proof.
  destruct hi as [[|h]|]; simpl; intros; try discriminate; auto. lia.
Qed.

Lemma within_0 hi : within hi 0.
Proof. destruct hi; simpl; auto. lia. Qed.

Section Soundness.
Context {R : Type}.

Lemma rep_lazy_sound (c : cls) (s : str) :
  forall lo hi prev (k : option N -> str -> option R) res,
    rep_lazy c lo hi prev s k = Some res ->
    exists x s' p', s = x ++ s' /\ forallb c x = true /\ (lo <= length x)%nat
                    /\ within hi (length x) /\ k p' s' = Some res.
Proof.
  induction s as [|a s IH]; intros lo hi prev k res H.
  - destruct lo; simpl in H; try discriminate.
    destruct (k prev []) eqn:E; try discriminate.
    exists [], [], prev. repeat split; auto using within_0. congruence.
  - assert (Hstep : (if more hi && c a
                     then rep_lazy c (pred lo) (dec hi) (Some a) s k
                     else None) = Some res ->
                    exists x s' p', a :: s = x ++ s' /\ forallb c x = true
                      /\ (lo <= length x)%nat /\ within hi (length x)
                      /\ k p' s' = Some res).
    { destruct (more hi && c a) eqn:E; try discriminate.
      apply andb_true_iff in E. destruct E as [Em Ec].
      intros H'. apply IH in H'.
      destruct H' as (x & s' & p' & -> & Hx & Hlo & Hhi & Hk).
      exists (a :: x), s', p'. simpl. rewrite Ec, Hx.
      repeat split; auto using within_step. lia. }
    destruct lo; simpl in H.
    + destruct (k prev (a :: s)) eqn:E.
      * exists [], (a :: s), prev. repeat split; auto using within_0. congruence.
      * auto.
    + auto.
Qed.

Lemma rep_greedy_sound (c : cls) (s : str) :
  forall lo hi prev (k : option N -> str -> option R) res,
    rep_greedy c lo hi prev s k = Some res ->
    exists x s' p', s = x ++ s' /\ forallb c x = true /\ (lo <= length x)%nat
                    /\ within hi (length x) /\ k p' s' = Some res.
Proof.
  induction s as [|a s IH]; intros lo hi prev k res H.
  - destruct lo; simpl in H; try discriminate.
    exists [], [], prev. repeat split; auto using within_0.
  - assert (Hstop : match lo with O => k prev (a :: s) | S _ => None end = Some res ->
                    exists x s' p', a :: s = x ++ s' /\ forallb c x = true
                      /\ (lo <= length x)%nat /\ within hi (length x)
                      /\ k p' s' = Some res).
    { destruct lo; try discriminate. intros H'.
      exists [], (a :: s), prev. repeat split; auto using within_0. }
    simpl in H. destruct (more hi && c a) eqn:E; auto.
    destruct (rep_greedy c (pred lo) (dec hi) (Some a) s k) eqn:E'; auto.
    apply andb_true_iff in E. destruct E as [Em Ec].
    inversion H; subst. apply IH in E'.
    destruct E' as (x & s' & p' & -> & Hx & Hlo & Hhi & Hk).
    exists (a :: x), s', p'. simpl. rewrite Ec, Hx.
    repeat split; auto using within_step. lia.
Qed.

Lemma exec_sound (r : regex) :
  forall prev s g (k : option N -> str -> groups -> option R) res,
    exec r prev s g k = Some res ->
    exists p' s' g', matches r s g s' g' /\ k p' s' g' = Some res.
Proof.
  induction r as [ | | | | c | c lo hi gr | r1 IH1 r2 IH2 | i r1 IH1 | r1 IH1];
    intros prev s g k res H; simpl in H.
  - exists prev, s, g. simpl. auto.
  - destruct prev; try discriminate. exists None, s, g. simpl. auto.
  - exists prev, s, g. simpl. split; auto.
    destruct prev as [p|]; auto. destruct (p =? 10); auto. discriminate.
  - exists prev, s, g. simpl. split; auto.
    destruct s as [|x s]; auto. destruct (x =? 10); auto. discriminate.
  - destruct s as [|x s]; try discriminate.
    destruct (c x) eqn:E; try discriminate.
    exists (Some x), s, g. simpl. split; auto. exists x. auto.
  - assert (exists x s' p', s = x ++ s' /\ forallb c x = true
              /\ (lo <= length x)%nat /\ within hi (length x)
              /\ k p' s' g = Some res) as (x & s' & p' & Hs & Hx & Hlo & Hhi & Hk).
    { destruct gr; [apply rep_greedy_sound in H | apply rep_lazy_sound in H]; auto. }
    exists p', s', g. simpl. split; auto. exists x. auto.
  - apply IH1 in H. destruct H as (pm & sm & gm & Hm & H).
    apply IH2 in H. destruct H as (p' & s' & g' & Hm' & H).
    exists p', s', g'. simpl. split; auto. exists sm, gm. auto.
  - apply IH1 in H. destruct H as (p' & s' & gm & Hm & H).
    exists p', s', (set_group i (consumed s s') gm). simpl. split; auto.
    exists gm. auto.
  - destruct (exec r1 prev s g k) eqn:E.
    + inversion H; subst. apply IH1 in E. destruct E as (p' & s' & g' & Hm & Hk).
      exists p', s', g'. simpl. auto.
    + exists prev, s, g. simpl. auto.
Qed.


End Soundness.

(** A successful [re_match] is a run of the pattern from the start of the
    subject with no group set. *)
Lemma re_match_sound (p : pattern) (s : str) (g : groups) :
  re_match p s = Some g ->
  exists s', matches (expr p) s (repeat None (ngroups p)) s' g.
Proof.
  unfold re_match. intros H. apply exec_sound in H.
  destruct H as (p' & s' & g' & Hm & Hk). inversion Hk; subst. eauto.
Qed.

Lemma consumed_app (x s' : str) : consumed (x ++ s') s' = x.
Proof.
  unfold consumed. rewrite length_app.
  replace (length x + length s' - length s')%nat with (length x) by lia.
  rewrite firstn_app, firstn_all, Nat.sub_diag. simpl. apply app_nil_r.
Qed.

(** From a successful [re_match] on a concrete pattern to the pieces of
    the subject. *)
Ltac invert_match H :=
  apply re_match_sound in H; destruct H as [? H];
  cbn -[consumed lit digit space dot excl] in H;
  break_matches; subst;
  cbn -[consumed lit digit space dot excl];
  rewrite ?consumed_app.

(** [re.search] for a one-character pattern looks for a character of the
    class. *)
Lemma search_chr (c : cls) (s : str) :
  forall prev, is_match (search_from (Pattern 0 (Chr c)) prev s) = existsb c s.
Proof.
  induction s as [|x s IH]; intros prev; cbn; auto.
  destruct (c x); cbn; auto.
Qed.

(** ** What the patterns capture *)

Lemma nonempty_len (x : str) : (1 <= length x)%nat -> x <> [].
Proof. destruct x; simpl; [lia | discriminate]. Qed.

Lemma journal_groups s g :
  re_match journal_re s = Some g ->
  exists i a t src y v n p,
    g = [i; Some a; Some t; Some src; Some y; v; n; p] /\ digits 4 y.
Proof.
  intros H. invert_match H.
  all: do 8 eexists; (split; [reflexivity|]); split; [lia | assumption].
Qed.

Lemma monograph_groups s g :
  re_match monograph_re s = Some g ->
  exists i a t src pub y p,
    g = [i; Some a; Some t; Some src; pub; Some y; p] /\ digits 4 y.
Proof.
  intros H. invert_match H.
  all: do 7 eexists; (split; [reflexivity|]); split; [lia | assumption].
Qed.

Lemma index_groups s g :
  re_match index_re s = Some g ->
  exists d, g = [Some d] /\ d <> [] /\ forallb isdecimal d = true.
Proof.
  intros H. invert_match H.
  eexists; split; [reflexivity|]. split; auto using nonempty_len.
Qed.

(** [\d{4}] matches every string of four digits. *)
Lemma year_re_complete y : digits 4 y -> re_match year_re y = Some [].
Proof.
  intros [Hl Hd].
  destruct y as [|a [|b [|c [|d [|e y]]]]]; try discriminate.
  simpl in Hd. repeat (apply andb_true_iff in Hd; destruct Hd as [? Hd]).
  unfold re_match, year_re, times. cbn -[digit]. unfold digit.
  repeat match goal with H : isdecimal _ = true |- _ => rewrite H; clear H end.
  reflexivity.
Qed.



(** ** The author list *)

Lemma str_eqb_refl (a : str) : str_eqb a a = true.
Proof. unfold str_eqb. destruct (list_eq_dec N.eq_dec a a); congruence. Qed.

Lemma str_eqb_eq (a b : str) : str_eqb a b = true <-> a = b.
Proof.
  unfold str_eqb. destruct (list_eq_dec N.eq_dec a b); split; congruence.
Qed.

Lemma contains_In (x : str) (xs : list str) : contains x xs = true <-> In x xs.
Proof.
  unfold contains. rewrite existsb_exists. split.
  - intros (y & Hy & E). apply str_eqb_eq in E. now subst.
  - intros H. exists x. split; auto using str_eqb_refl.
Qed.

Lemma split_nonempty (sep : N) (s : str) : split sep s <> [].
Proof.
  destruct s as [|c s]; simpl; try discriminate.
  destruct (c =? sep); try discriminate.
  destruct (split sep s); discriminate.
Qed.

Lemma split_no_sep (sep : N) (s : str) :
  has_char sep s = false -> split sep s = [s].
Proof.
  unfold has_char. induction s as [|c s IH]; simpl; auto.
  rewrite orb_false_iff, N.eqb_sym. intros [-> H]. now rewrite (IH H).
Qed.

(** The result of [_parse_authors] is never empty, and when it has more
    than three elements the marker is among them. *)
Lemma parse_authors_marked (a : str) :
  exists l, _parse_authors (Some a) = Ret l /\ l <> []
            /\ (3 <? len l) && negb (contains et_al l) = false.
Proof.
  unfold _parse_authors.
  destruct (is_match (re_search cjk_re a)).
  2: { exists [a]. repeat split; try discriminate; reflexivity. }
  destruct (has_char (ch ",") a).
  2: { exists [a]. repeat split; try discriminate; reflexivity. }
  destruct (3 <? len (split (ch ",") a)) eqn:E.
  - eexists. split; [reflexivity|]. split.
    + intros H. apply app_eq_nil in H. destruct H; discriminate.
    + apply andb_false_iff. right. apply negb_false_iff, contains_In.
      apply in_or_app. right. now left.
  - eexists. split; [reflexivity|]. split; auto using split_nonempty.
    rewrite E. reflexivity.
Qed.

(** ** A greedy repetition that cannot take more *)

Section Greedy.
Context {R : Type}.
Lemma rep_greedy_max (c : cls) (k : option N -> str -> option R) (s' : str) (res : R) :
  stops c s' ->
  forall x lo prev,
    forallb c x = true -> (lo <= length x)%nat ->
    (forall p, k p s' = Some res) ->
    rep_greedy c lo None prev (x ++ s') k = Some res.
Proof.
  intros Hs. induction x as [|a x IH]; intros lo prev Hx Hlo Hk.
  - simpl in Hlo. assert (lo = 0%nat) by lia. subst lo. simpl.
    destruct s' as [|y s']; simpl; auto. simpl in Hs. rewrite Hs. auto.
  - simpl in Hx. apply andb_true_iff in Hx. destruct Hx as [Ha Hx].
    simpl. rewrite Ha. rewrite (IH (pred lo) (Some a)); auto.
    simpl in Hlo. lia.
Qed.
End Greedy.

Lemma index_re_complete (d rest : str) :
  d <> [] -> forallb isdecimal d = true ->
  re_match index_re (bracketed d rest) = Some [Some d].
Proof.
  intros Hd Hdec. unfold re_match, index_re, bracketed. cbn -[rep_greedy consumed].
  apply rep_greedy_max.
  - reflexivity.
  - exact Hdec.
  - destruct d; [congruence | simpl; lia].
  - intros p. cbn -[consumed]. now rewrite consumed_app.
Qed.

Ltac lit_subst :=
  repeat match goal with
  | H : lit _ _ = true |- _ => unfold lit in H; apply N.eqb_eq in H; subst
  end.

Lemma index_re_inv (s : str) (g : groups) :
  re_match index_re s = Some g ->
  exists d rest, s = bracketed d rest /\ g = [Some d] /\ d <> []
                 /\ forallb isdecimal d = true.
Proof.
  intros H. invert_match H. lit_subst.
  do 2 eexists. split; [reflexivity|]. repeat split; auto using nonempty_len.
Qed.


(** ** The shape of every parsed record *)

(** The first step of [parse_reference]: the number of the entry, or the
    [ValueError] of [int] when it has too many digits. *)
Lemma parse_index_eq (raw : str) :
  match re_match index_re (strip raw) with
  | Some g => g1 <- item g 0 ;; i <- int g1 ;;
              Ret (with_index (Reference_init raw) (Some i))
  | None => Ret (Reference_init raw)
  end = if number_too_long raw then Raise ValueError
        else Ret (with_index (Reference_init raw) (index_of (strip raw))).
Proof.
  unfold number_too_long, index_of.
  destruct (re_match index_re (strip raw)) as [g|] eqn:E; [|reflexivity].
  apply index_groups in E. destruct E as (d & -> & Hd & Hdec).
  cbn [item nth_error bind int]. destruct d as [|c d]; [congruence|].
  rewrite Hdec. destruct (max_str_digits <? len (c :: d)); reflexivity.
Qed.

(** [parse_reference] raises exactly when the number has too many
    digits; otherwise it returns a record of one of the shapes of
    [parsed_shape]. *)
Lemma parse_reference_shape (raw : str) :
  if number_too_long raw then parse_reference raw = Raise ValueError
  else exists r, parse_reference raw = Ret r /\ parsed_shape raw r.
Proof.
  unfold parse_reference. rewrite parse_index_eq.
  destruct (number_too_long raw); [reflexivity|].
  simpl bind. unfold patterns, try_patterns.
  destruct (re_match journal_re (strip raw)) as [g|] eqn:Ej.
  { destruct (journal_groups _ Ej) as (g0 & a & t & src & y & v & n & p & -> & Hy).
    destruct (parse_authors_marked a) as (l & Hl & _).
    cbn -[_parse_authors]. rewrite Hl. cbn. eexists. split; [reflexivity|].
    repeat split; cbn -[re_match _parse_authors strip]; try congruence.
    exists a, t, src, y. cbn -[_parse_authors]. auto. }
  destruct (re_match monograph_re (strip raw)) as [g|] eqn:Em.
  { destruct (monograph_groups _ Em) as (g0 & a & t & src & pub & y & p & -> & Hy).
    destruct (parse_authors_marked a) as (l & Hl & _).
    cbn -[_parse_authors]. rewrite Hl. cbn. eexists. split; [reflexivity|].
    repeat split; cbn -[re_match _parse_authors strip]; try congruence.
    exists a, t, src, y. cbn -[_parse_authors]. auto. }
  destruct (re_match conference_re (strip raw)) as [g|] eqn:Ec.
  { cbn. eexists. split; [reflexivity|].
    repeat split; cbn -[re_match strip]; congruence. }
  destruct (re_match dissertation_re (strip raw)) as [g|] eqn:Ed.
  { cbn. eexists. split; [reflexivity|].
    repeat split; cbn -[re_match strip]; congruence. }
  destruct (re_match standard_re (strip raw)) as [g|] eqn:Es.
  { cbn. eexists. split; [reflexivity|].
    repeat split; cbn -[re_match strip]; congruence. }
  cbn. eexists. split; [reflexivity|]. repeat split; cbn -[re_match strip]; auto.
  unfold no_match, patterns. repeat constructor; assumption.
Qed.

(** The shape of a record that [parse_reference] is known to have
    returned. *)
Lemma parsed_shape_of (raw : str) (r : Reference) :
  parse_reference raw = Ret r -> parsed_shape raw r.
Proof.
  intros Hp. pose proof (parse_reference_shape raw) as H.
  destruct (number_too_long raw); [congruence|].
  destruct H as (r' & Hp' & Hs).
  rewrite Hp in Hp'. inversion Hp'; subst r'. exact Hs.
Qed.

Lemma parse_reference_returns (raw : str) :
  number_too_long raw = false -> exists r, parse_reference raw = Ret r.
Proof.
  intros E. pose proof (parse_reference_shape raw) as H. rewrite E in H.
  destruct H as (r & Hr & _). eauto.
Qed.

Lemma parse_reference_raises (raw : str) :
  number_too_long raw = true -> parse_reference raw = Raise ValueError.
Proof.
  intros E. pose proof (parse_reference_shape raw) as H. now rewrite E in H.
Qed.

Lemma parsed_number_short (raw : str) (r : Reference) :
  parse_reference raw = Ret r -> number_too_long raw = false.
Proof.
  intros Hp. destruct (number_too_long raw) eqn:E; [|reflexivity].
  rewrite (parse_reference_raises _ E) in Hp. discriminate.
Qed.

Lemma parsed_year (raw : str) (r : Reference) (y : str) :
  parse_reference raw = Ret r -> year r = Some y -> digits 4 y.
Proof.
  intros Hp Hy. destruct (@parsed_shape_of raw r Hp) as (_ & _ & Hs).
  destruct (type r) as [[]|].
  1,2: destruct Hs as [(a & t & src & y' & _ & _ & _ & Hy' & Hd) _]; congruence.
  all: destruct Hs as [(_ & _ & _ & Hy' & _) _]; congruence.
Qed.

(** The records of the three kinds without a branch in [_extract_fields]
    keep the fields of the constructor. *)
Lemma unextracted_kinds (raw : str) (r : Reference) :
  parse_reference raw = Ret r ->
  type r = Some conference \/ type r = Some dissertation \/ type r = Some standard ->
  unpopulated r.
Proof.
  intros Hp Hk. destruct (@parsed_shape_of raw r Hp) as (_ & _ & Hs).
  destruct Hk as [Hk | [Hk | Hk]]; rewrite Hk in Hs; apply Hs.
Qed.

(** The error about more than three authors is never produced for a
    parsed record: [_parse_authors] adds the marker itself. *)
Lemma et_al_error_unreachable (raw : str) (r : Reference) (refs : list Reference) :
  parse_reference raw = Ret r -> ~ In msg_et_al (validate_reference refs r).
Proof.
  intros Hp Hin. destruct (@parsed_shape_of raw r Hp) as (_ & _ & Hs).
  unfold validate_reference in Hin. split_in Hin.
  - unfold check_index in Hin. case_in Hin; msg_neq Hin.
  - unfold check_authors in Hin.
    assert (Ha : authors r = []
                 \/ (3 <? len (authors r)) && negb (contains et_al (authors r)) = false).
    { destruct (type r) as [[]|]; try (left; apply Hs).
      all: destruct Hs as [(a & t & src & y & Ha & _) _].
      all: destruct (parse_authors_marked a) as (l & Hl & _ & Hm).
      all: rewrite Ha in Hl; inversion Hl; subst l; auto. }
    destruct Ha as [Ha|Ha].
    + rewrite Ha in Hin. case_in Hin. msg_neq Hin.
    + rewrite Ha in Hin. case_in Hin; msg_neq Hin.
  - unfold check_title in Hin. case_in Hin; msg_neq Hin.
  - unfold check_type in Hin. case_in Hin; msg_neq Hin.
  - unfold check_year in Hin. case_in Hin; msg_neq Hin.
Qed.

(** The number check passes exactly for the number after the position:
    the record is already in the list it is compared with. *)
Lemma check_index_spec (refs : list Reference) (r : Reference) :
  check_index (refs ++ [r]) r = [] <-> index r = Some (len refs + 2).
Proof.
  unfold check_index, len. rewrite length_app. cbn [length].
  destruct (index r) as [i|]; [|split; discriminate].
  destruct (i =? N.of_nat (length refs + 1) + 1) eqn:E; cbn [negb].
  - apply N.eqb_eq in E. split; auto. intros _. f_equal. lia.
  - apply N.eqb_neq in E. split; [discriminate|]. intros H. inversion H. lia.
Qed.

(** ** The loop of [validate_references] *)

Lemma loop_body_spec (refs : list Reference) (errs warns : list str) (entry : str) :
  (strip entry = [] /\ loop_body (refs, errs, warns) entry = Ret (refs, errs, warns))
  \/ (strip entry <> [] /\ number_too_long (strip entry) = true
      /\ loop_body (refs, errs, warns) entry = Raise ValueError)
  \/ (strip entry <> [] /\ number_too_long (strip entry) = false /\ exists r,
        parse_reference (strip entry) = Ret r
        /\ loop_body (refs, errs, warns) entry =
           Ret (refs ++ [r],
                errs ++ map (tag r) (validate_reference (refs ++ [r]) r),
                warns ++ map (tag r) (check_common_problems r))).
Proof.
  unfold loop_body. destruct (strip entry) as [|c e] eqn:E.
  - left. auto.
  - right. destruct (number_too_long (c :: e)) eqn:El.
    + left. split; [discriminate|]. split; auto.
      now rewrite (parse_reference_raises _ El).
    + right. split; [discriminate|]. split; auto.
      destruct (parse_reference_returns _ El) as (r & Hr).
      exists r. split; auto. rewrite Hr. cbn [bind].
      destruct (validate_reference (refs ++ [r]) r);
        destruct (check_common_problems r); cbn [map]; rewrite ?app_nil_r; reflexivity.
Qed.

(** The loop stops with the [ValueError] of the first entry whose number
    has too many digits; the entries before it are parsed, appended and
    checked in order. *)
Lemma loop_spec (es : list str) :
  forall refs errs warns,
  exists new,
    Forall2 parses_to (short_prefix (filter nonemptyb (map strip es))) new
    /\ loop (refs, errs, warns) es =
       if existsb number_too_long (filter nonemptyb (map strip es))
       then Raise ValueError
       else Ret (refs ++ new, errs ++ errors_of refs new, warns ++ warnings_of new).
Proof.
  induction es as [|e es IH]; intros refs errs warns.
  - exists []. cbn. rewrite !app_nil_r. split; constructor.
  - cbn [loop map filter].
    destruct (loop_body_spec refs errs warns e)
      as [[E ->] | [(E & El & ->) | (E & El & r & Hr & ->)]].
    + cbn [bind]. rewrite E. cbn [nonemptyb]. apply IH.
    + exists []. destruct (strip e) eqn:Ee; [congruence|].
      cbn [nonemptyb existsb short_prefix bind]. rewrite El.
      split; [constructor | reflexivity].
    + cbn [bind].
      destruct (IH (refs ++ [r])
                   (errs ++ map (tag r) (validate_reference (refs ++ [r]) r))
                   (warns ++ map (tag r) (check_common_problems r)))
        as (new & HF & ->).
      exists (r :: new). destruct (strip e) eqn:Ee; [congruence|].
      cbn [nonemptyb existsb short_prefix]. rewrite El. cbn [orb]. split.
      * constructor; auto.
      * destruct (existsb number_too_long _); [reflexivity|].
        cbn [errors_of warnings_of flat_map]. fold (warnings_of new).
        now rewrite <- !app_assoc.
Qed.

Lemma short_prefix_all (es : list str) :
  existsb number_too_long es = false -> short_prefix es = es.
Proof.
  induction es as [|e es IH]; cbn; [reflexivity|].
  destruct (number_too_long e); cbn; [discriminate|].
  intros H. now rewrite IH.
Qed.

(** ** The report *)

(** A report that [validate_references] returns is the report on the
    records of the entries. *)
Lemma report_spec (text : str) (rep : Report) :
  validate_references text = Ret rep ->
  exists refs, Forall2 parses_to (entries text) refs /\ rep = report_of refs.
Proof.
  unfold validate_references, entries.
  destruct (loop_spec (split_newlines (strip text)) [] [] []) as (new & HF & ->).
  destruct (existsb number_too_long _) eqn:E; [discriminate|].
  rewrite (short_prefix_all _ E) in HF.
  cbn. intros H. inversion H. exists new. split; [exact HF | reflexivity].
Qed.

Lemma report_cases (text : str) :
  exists refs,
    Forall2 parses_to (short_prefix (entries text)) refs
    /\ validate_references text =
       if existsb number_too_long (entries text) then Raise ValueError
       else Ret (report_of refs).
Proof.
  unfold validate_references, entries.
  destruct (loop_spec (split_newlines (strip text)) [] [] []) as (new & HF & ->).
  exists new. split; [exact HF|].
  now destruct (existsb number_too_long _).
Qed.



Lemma errors_of_in (new : list Reference) :
  forall seen i r m,
    nth_error new i = Some r ->
    In m (validate_reference (seen ++ firstn (S i) new) r) ->
    In (tag r m) (errors_of seen new).
Proof.
  induction new as [|a new IH]; intros seen i r m Hn Hin.
  - destruct i; discriminate.
  - destruct i; simpl in Hn.
    + inversion Hn; subst. simpl. apply in_or_app. left.
      apply in_map. exact Hin.
    + simpl. apply in_or_app. right. apply (IH (seen ++ [a]) i r m Hn).
      rewrite <- app_assoc. exact Hin.
Qed.

Lemma warnings_of_in (refs : list Reference) (m : str) :
  In m (warnings_of refs) <->
  exists r, In r refs /\ In m (map (tag r) (check_common_problems r)).
Proof. unfold warnings_of. apply in_flat_map. Qed.

(** The prefix of a reported message determines where the message
    starts: the number it interpolates has no colon. *)
Lemma str_of_int_no_colon (n : N) : Forall (fun c => c <> ch ":") (str_of_int n).
Proof.
  unfold str_of_int.
  assert (H : forall d, Forall (fun c => c <> ch ":")
                          (map N_of_ascii (list_ascii_of_string (NilEmpty.string_of_uint d)))).
  { induction d; cbn [NilEmpty.string_of_uint list_ascii_of_string map];
      constructor; auto; discriminate. }
  destruct (N.to_uint n); try apply H.
  cbn. constructor; [discriminate | constructor].
Qed.

Lemma split_at_colon (x : str) :
  forall y a b,
    Forall (fun c => c <> ch ":") x -> Forall (fun c => c <> ch ":") y ->
    x ++ ch ":" :: a = y ++ ch ":" :: b -> a = b.
Proof.
  change (ch ":") with 58.
  induction x as [|c x IH]; intros y a b Hx Hy H.
  - destruct y as [|d y]; cbn in H; [congruence|].
    inversion Hy; subst. congruence.
  - destruct y as [|d y]; cbn in H.
    + inversion Hx; subst. congruence.
    + inversion Hx; inversion Hy; subst. apply (IH y a b); auto. congruence.
Qed.

Lemma tag_inj (r r' : Reference) (m m' : str) : tag r m = tag r' m' -> m = m'.
Proof.
  unfold tag. intros H. apply app_inv_head in H.
  change (u ": ") with [ch ":"; 32] in H. cbn [app] in H.
  assert (Hn : forall i, Forall (fun c => c <> ch ":") (str_of_opt_int i)).
  { intros [i|]; cbn [str_of_opt_int]; [apply str_of_int_no_colon|].
    repeat constructor; discriminate. }
  apply split_at_colon in H; auto. congruence.
Qed.

(** No message of [check_common_problems] is about the length of the
    title. *)
Lemma no_title_warning (ref : Reference) (n : N) :
  ~ In (msg_long_title n) (check_common_problems ref).
Proof.
  intros H. unfold check_common_problems in H. split_in H.
  - unfold warn_source in H. case_in H; msg_neq H.
  - unfold warn_pages in H. case_in H; msg_neq H.
  - unfold warn_latin in H. case_in H; msg_neq H.
Qed.

Lemma title_errors (refs : list Reference) (ref : Reference) :
  (truthy (title ref) = false -> In msg_no_title (validate_reference refs ref))
  /\ (forall t, title ref = Some t -> 100 < len t ->
        In (msg_long_title (len t)) (validate_reference refs ref)).
Proof.
  split.
  - intros H. unfold validate_reference. apply in_or_app. right.
    apply in_or_app. right. apply in_or_app. left.
    unfold check_title. destruct (title ref) as [[|c t]|]; try discriminate; now left.
  - intros t Ht Hl.
    unfold validate_reference. apply in_or_app. right.
    apply in_or_app. right. apply in_or_app. left.
    unfold check_title. rewrite Ht.
    destruct t as [|c t]; [unfold len in Hl; simpl in Hl; lia|].
    apply N.ltb_lt in Hl. rewrite Hl. now left.
Qed.

(** An error of a record of the report is an error of the report, which
    is then invalid. *)
Lemma reported_error (text : str) (rep : Report) (r : Reference) (m : str) :
  validate_references text = Ret rep -> In r (references rep) ->
  (forall refs, In m (validate_reference refs r)) ->
  In (tag r m) (all_errors rep) /\ valid rep = false.
Proof.
  intros Hv Hin Hm. destruct (@report_spec text rep Hv) as (refs & _ & ->).
  cbn [references all_errors valid report_of] in *.
  apply In_nth_error in Hin. destruct Hin as (i & Hi).
  assert (He : In (tag r m) (errors_of [] refs)).
  { apply (@errors_of_in refs [] i r m Hi). apply Hm. }
  split; [exact He|].
  destruct (errors_of [] refs); [destruct He | reflexivity].
Qed.

Lemma len_0 {A} (xs : list A) : (len xs =? 0) = true <-> xs = [].
Proof. unfold len. destruct xs; cbn; split; auto; discriminate. Qed.



(** * The claims *)

(** C1.  The documented journal entry
    [[1] 张三. AI赋能教育的实践探索[J]. 计算机教育, 2023, 20(5): 12-18.] should
    parse as a journal article with authors, year, volume, issue and pages
    extracted, and validate without errors.  It does not: [journal_re]
    asks for a bracketed number where the format has [[J]], no other
    pattern matches either, so the record stays unclassified with no field
    set, and the one-entry batch is reported invalid with five errors. *)
Theorem documented_journal_entry_unclassified :
  re_match journal_re journal_example = None
  /\ exists r,
      parse_reference journal_example = Ret r
      /\ type r = None /\ authors r = [] /\ title r = Some [] /\ year r = None
      /\ volume r = None /\ issue r = None /\ pages r = Some []
      /\ exists rep,
          validate_references journal_example = Ret rep
          /\ valid rep = false
          /\ all_errors rep = map (tag r) (msg_sequence 2 :: unclassified_rest).
Proof.
  split; [vm_compute; reflexivity|].
  eexists. split; [vm_compute; reflexivity|].
  repeat (split; [reflexivity|]).
  eexists. split; [vm_compute; reflexivity|].
  split; vm_compute; reflexivity.
Qed.

(** C2.  In a batch numbered 1, 2, 4 the only sequence error should be at
    the third record (expected 3, actual 4).  The validator compares each
    number with the length of a list that already holds the record, so it
    reports the first record (expected 2) and the second (expected 3) and
    accepts the third; this is shown for the documented journal format,
    where the records also get the errors of unclassified entries, and for
    entries [journal_re] accepts, where the two sequence errors are the
    only ones. *)
Theorem sequence_check_off_by_one :
  (exists rep r1 r2 r3,
      validate_references skipping_batch = Ret rep
      /\ references rep = [r1; r2; r3]
      /\ index r1 = Some 1 /\ index r2 = Some 2 /\ index r3 = Some 4
      /\ all_errors rep =
         map (tag r1) (msg_sequence 2 :: unclassified_rest)
         ++ map (tag r2) (msg_sequence 3 :: unclassified_rest)
         ++ map (tag r3) unclassified_rest)
  /\ (exists rep r1 r2 r3,
      validate_references skipping_batch_accepted = Ret rep
      /\ references rep = [r1; r2; r3]
      /\ index r1 = Some 1 /\ index r2 = Some 2 /\ index r3 = Some 4
      /\ type r1 = Some journal /\ type r2 = Some journal /\ type r3 = Some journal
      /\ all_errors rep = [tag r1 (msg_sequence 2); tag r2 (msg_sequence 3)]).
Proof.
  split.
  - do 4 eexists. split; [vm_compute; reflexivity|].
    repeat split; vm_compute; reflexivity.
  - do 4 eexists. split; [vm_compute; reflexivity|].
    repeat split; vm_compute; reflexivity.
Qed.

(** C3.  Every matched entry should have its fields populated, for all
    five kinds.  [_extract_fields] has a branch for journals and
    monographs only: the documented conference example matches
    [conference_re], whose groups hold its author, title, editor, venue,
    place, publisher, year and pages, yet the record keeps the empty
    fields of the constructor and is then reported as lacking authors,
    title and year; the same holds for a dissertation and a standard. *)
Theorem conference_fields_not_extracted :
  re_match conference_re conference_example =
    Some [ Some (u "5"); Some (u "王五"); Some (u "大模型驱动的教学变革");
           Some (u "李明"); Some (u "计算机教育创新文集"); Some (u "北京");
           Some (u "清华大学出版社"); Some (u "2023"); Some (u "234-245") ]
  /\ (exists r, parse_reference conference_example = Ret r
        /\ type r = Some conference /\ unpopulated r
        /\ validate_reference [r] r =
           [msg_sequence 2; msg_no_authors; msg_no_title; msg_no_year])
  /\ (exists r, parse_reference dissertation_entry = Ret r
        /\ type r = Some dissertation /\ unpopulated r)
  /\ (exists r, parse_reference standard_entry = Ret r
        /\ type r = Some standard /\ unpopulated r).
Proof.
  split; [vm_compute; reflexivity|].
  split; [|split].
  all: eexists; (split; [vm_compute; reflexivity|]).
  all: unfold unpopulated; repeat split; vm_compute; reflexivity.
Qed.

(** C4, as the validator has it.  An unclassified record gets the error
    that its type was not recognized, and no check is skipped for it:
    after whatever the check of its number reports come the errors for the
    missing authors, the missing title, the unknown type and the missing
    year, in this order; a record without a number gets the error for the
    missing number; and there are no warnings. *)
Theorem unclassified_errors (raw : str) (r : Reference) (refs : list Reference)
    (Hp : parse_reference raw = Ret r) (Hk : type r = None) :
  validate_reference refs r = check_index refs r ++ unclassified_rest
  /\ (index r = None -> check_index refs r = [msg_no_index])
  /\ check_common_problems r = [].
Proof.
  destruct (@parsed_shape_of raw r Hp) as (_ & _ & Hs).
  rewrite Hk in Hs. destruct Hs as [(Ha & Ht & Hsrc & Hy & _ & _ & Hpg) _].
  split; [|split].
  - unfold validate_reference, check_authors, check_title, check_type, check_year.
    now rewrite Ha, Ht, Hk, Hy.
  - unfold check_index. now intros ->.
  - unfold check_common_problems, warn_source, warn_pages, warn_latin, type_is.
    now rewrite Ha, Hk, Hpg.
Qed.

Lemma unclassified_errors_witness :
  exists r, parse_reference url_line = Ret r /\ type r = None
    /\ validate_reference [r] r = msg_no_index :: unclassified_rest
    /\ check_common_problems r = [].
Proof.
  eexists. split; [vm_compute; reflexivity|]. split; [reflexivity|].
  match goal with |- validate_reference ?refs ?r = _ /\ _ =>
    assert (Hp : parse_reference url_line = Ret r) by (vm_compute; reflexivity);
    destruct (@unclassified_errors url_line r refs Hp eq_refl) as (H1 & H2 & H3)
  end.
  split; [rewrite H1, H2; reflexivity | exact H3].
Defined.

(** C4 as stated fails: a line that is no reference at all is reported
    with five errors, not one. *)
Lemma unrecognized_line_five_errors :
  exists rep r,
    validate_references url_line = Ret rep /\ references rep = [r]
    /\ type r = None
    /\ all_errors rep = map (tag r) (msg_no_index :: unclassified_rest)
    /\ length (all_errors rep) = 5%nat
    /\ all_warnings rep = [].
Proof.
  do 2 eexists. split; [vm_compute; reflexivity|].
  repeat split; vm_compute; reflexivity.
Qed.

(** C5.  An entry with four Chinese authors and no marker should get
    exactly one error, about the marker.  It gets none: [_parse_authors]
    cuts the list to three names and appends the marker itself, so the
    test in [validate_reference] never fires (see
    [et_al_error_unreachable]).  For the entry in the shape [journal_re]
    accepts the only error is the sequence error; the entry in the
    documented format is unclassified, its authors are never parsed and
    its five errors do not mention the marker either. *)
Theorem four_authors_no_truncation_error :
  (exists rep r,
      validate_references four_authors_entry = Ret rep /\ references rep = [r]
      /\ type r = Some journal
      /\ authors r = [u "张三"; u "李四"; u "王五"; et_al]
      /\ all_errors rep = [tag r (msg_sequence 2)]
      /\ ~ In (tag r msg_et_al) (all_errors rep))
  /\ (exists rep r,
      validate_references four_authors_documented = Ret rep /\ references rep = [r]
      /\ type r = None /\ authors r = []
      /\ all_errors rep = map (tag r) (msg_sequence 2 :: unclassified_rest)
      /\ ~ In (tag r msg_et_al) (all_errors rep)).
Proof.
  split.
  all: do 2 eexists; (split; [vm_compute; reflexivity|]).
  all: repeat split; try (vm_compute; reflexivity).
  all: vm_compute; intuition discriminate.
Qed.

(** C6, as the validator has it.  A missing or empty title is an error,
    and so is a title of more than 100 characters: its message is among
    the errors of [validate_reference], and [check_common_problems] has no
    warning about the length of a title.  So it is in every report that
    [validate_references] returns: a record with such a title has its
    message among the errors of the report, the report is invalid, and
    none of its warnings is about the length of a title. *)
Theorem long_title_is_error :
  (forall refs ref,
      (truthy (title ref) = false -> In msg_no_title (validate_reference refs ref))
      /\ (forall t, title ref = Some t -> 100 < len t ->
            In (msg_long_title (len t)) (validate_reference refs ref)
            /\ forall n, ~ In (msg_long_title n) (check_common_problems ref)))
  /\ (forall text rep, validate_references text = Ret rep ->
      (forall r, In r (references rep) ->
         (truthy (title r) = false ->
            In (tag r msg_no_title) (all_errors rep) /\ valid rep = false)
         /\ (forall t, title r = Some t -> 100 < len t ->
               In (tag r (msg_long_title (len t))) (all_errors rep)
               /\ valid rep = false))
      /\ (forall r n, ~ In (tag r (msg_long_title n)) (all_warnings rep))).
Proof.
  split.
  - intros refs ref. destruct (title_errors refs ref) as [He Hl].
    split; [exact He|]. intros t Ht Hlen. split; [now apply Hl|].
    apply no_title_warning.
  - intros text rep Hv. split.
    + intros r Hin. split.
      * intros Ht. apply (@reported_error text rep r msg_no_title Hv Hin).
        intros refs. now apply title_errors.
      * intros t Ht Hlen. apply (@reported_error text rep r _ Hv Hin).
        intros refs. now apply title_errors.
    + intros r n Hin. destruct (@report_spec text rep Hv) as (refs & _ & ->).
      cbn [all_warnings report_of] in Hin.
      apply warnings_of_in in Hin. destruct Hin as (r' & _ & Hin).
      apply in_map_iff in Hin. destruct Hin as (m & Hm & Hin).
      apply tag_inj in Hm. subst m. revert Hin. apply no_title_warning.
Qed.

Lemma long_title_is_error_witness :
  exists rep r,
    validate_references long_title_entry = Ret rep /\ In r (references rep)
    /\ title r = Some long_title /\ 100 < len long_title
    /\ In (tag r (msg_long_title (len long_title))) (all_errors rep)
    /\ valid rep = false.
Proof.
  assert (H : exists rep, validate_references long_title_entry = Ret rep).
  { eexists. vm_compute. reflexivity. }
  destruct H as (rep & Hv).
  assert (H : exists r, In r (references rep) /\ title r = Some long_title).
  { vm_compute in Hv. inversion Hv. eexists. split; [left; reflexivity|].
    vm_compute. reflexivity. }
  destruct H as (r & Hin & Ht).
  assert (Hl : 100 < len long_title) by (vm_compute; reflexivity).
  exists rep, r. repeat split; auto.
  all: apply (proj2 (proj1 (proj2 long_title_is_error long_title_entry rep Hv) r Hin)
                long_title Ht Hl).
Defined.

(** C6 as stated fails: the entry with a title of 101 characters makes the
    report invalid with one error, the one about the title, and no
    warning. *)
Lemma long_title_reported_as_error :
  exists rep r,
    validate_references long_title_entry = Ret rep /\ references rep = [r]
    /\ title r = Some long_title /\ len long_title = 101
    /\ valid rep = false
    /\ all_errors rep = [tag r (msg_long_title 101)]
    /\ all_warnings rep = [].
Proof.
  do 2 eexists. split; [vm_compute; reflexivity|].
  repeat split; vm_compute; reflexivity.
Qed.

(** C7.  For an author string with a CJK ideograph, [_parse_authors]
    returns the comma-separated tokens when there are at most three, and
    the first three of them followed by the marker when there are more;
    the result then has four elements.  The list is all the function
    returns: truncation shows in it as the marker, which is what
    [validate_reference] looks for. *)
Theorem parse_authors_cjk (s : str) (Hcjk : existsb is_cjk s = true) :
  let tokens := split (ch ",") s in
  (3 < len tokens ->
     _parse_authors (Some s) = Ret (firstn 3 tokens ++ [et_al])
     /\ length (firstn 3 tokens ++ [et_al]) = 4%nat
     /\ firstn 3 (firstn 3 tokens ++ [et_al]) = firstn 3 tokens
     /\ contains et_al (firstn 3 tokens ++ [et_al]) = true)
  /\ (len tokens <= 3 -> _parse_authors (Some s) = Ret tokens).
Proof.
  intros tokens. subst tokens.
  assert (Hp : _parse_authors (Some s) =
               Ret (if 3 <? len (split (ch ",") s)
                    then firstn 3 (split (ch ",") s) ++ [et_al]
                    else split (ch ",") s)).
  { unfold _parse_authors, re_search, cjk_re. rewrite search_chr.
    change (range 19968 40959) with is_cjk. rewrite Hcjk.
    destruct (has_char (ch ",") s) eqn:E;
      [destruct (3 <? len (split (ch ",") s)); reflexivity|].
    rewrite (split_no_sep _ _ E). reflexivity. }
  split; intros H.
  - assert (Hl : length (firstn 3 (split (ch ",") s)) = 3%nat).
    { unfold len in H. rewrite length_firstn. lia. }
    apply N.ltb_lt in H. rewrite H in Hp. split; [exact Hp|].
    split; [rewrite length_app, Hl; reflexivity|]. split.
    + rewrite firstn_app, Hl, Nat.sub_diag, firstn_O, app_nil_r.
      rewrite <- Hl at 1. apply firstn_all.
    + apply contains_In, in_or_app. right. now left.
  - apply N.ltb_ge in H. now rewrite H in Hp.
Qed.

Lemma parse_authors_cjk_witness :
  _parse_authors (Some (u "张三,李四,王五,赵六")) =
    Ret [u "张三"; u "李四"; u "王五"; et_al]
  /\ _parse_authors (Some (u "张三,李四")) = Ret [u "张三"; u "李四"].
Proof.
  split.
  - exact (proj1 (proj1 (@parse_authors_cjk (u "张三,李四,王五,赵六") eq_refl) eq_refl)).
  - apply (proj2 (@parse_authors_cjk (u "张三,李四") eq_refl)).
    vm_compute. discriminate.
Defined.







(** C10.  For a parsed record of one of the five kinds the error about
    the format of the year cannot occur: a year that is present consists
    of exactly four digits and matches the pattern [validate_reference]
    tests it with, and no message about the year format is among the
    errors. *)
Theorem year_format_error_unreachable (raw : str) (r : Reference)
    (Hp : parse_reference raw = Ret r) (Hk : type r <> None) :
  (forall y, year r = Some y ->
             digits 4 y /\ is_match (re_match year_re y) = true)
  /\ (forall refs y, ~ In (msg_year_format y) (validate_reference refs r)).
Proof.
  assert (Hy : forall y, year r = Some y ->
             digits 4 y /\ is_match (re_match year_re y) = true).
  { intros y Hy. pose proof (@parsed_year raw r y Hp Hy) as Hd. split; auto.
    now rewrite (@year_re_complete y Hd). }
  split; auto.
  intros refs y Hin. unfold validate_reference in Hin. split_in Hin.
  - unfold check_index in Hin. case_in Hin; msg_neq Hin.
  - unfold check_authors in Hin. case_in Hin; msg_neq Hin.
  - unfold check_title in Hin. case_in Hin; msg_neq Hin.
  - unfold check_type in Hin. case_in Hin; msg_neq Hin.
  - unfold check_year in Hin.
    destruct (year r) as [[|c y']|] eqn:E.
    + case_in Hin. msg_neq Hin.
    + destruct (Hy (c :: y') eq_refl) as [_ Hm]. rewrite Hm in Hin. destruct Hin.
    + case_in Hin. msg_neq Hin.
Qed.

Lemma year_format_error_unreachable_witness :
  exists r, parse_reference four_authors_entry = Ret r
    /\ type r <> None
    /\ is_match (re_match year_re (u "2023")) = true
    /\ ~ In (msg_year_format (u "2023")) (validate_reference [r] r).
Proof.
  eexists. split; [vm_compute; reflexivity|]. split; [discriminate|].
  match goal with |- _ /\ ~ In _ (validate_reference ?refs ?r) =>
    assert (Hp : parse_reference four_authors_entry = Ret r) by (vm_compute; reflexivity);
    assert (Hk : type r <> None) by discriminate;
    destruct (@year_format_error_unreachable four_authors_entry r Hp Hk) as [H1 H2]
  end.
  split; [apply (H1 (u "2023") eq_refl) | apply H2].
Defined.

(** * Further properties *)

(** ** [strip] *)
Lemma lstrip_head (s : str) :
  match lstrip s with
  | [] => True
  | c :: _ => isspace c = false
  end.
Proof.
  induction s as [|c s IH]; simpl; auto.
  destruct (isspace c) eqn:E; auto.
Qed.

Lemma lstrip_fix (s : str) :
  match s with [] => True | c :: _ => isspace c = false end -> lstrip s = s.
Proof. destruct s as [|c s]; simpl; auto. now intros ->. Qed.

Lemma lstrip_idem (s : str) : lstrip (lstrip s) = lstrip s.
Proof. apply lstrip_fix, lstrip_head. Qed.

Lemma lstrip_app (s t : str) :
  lstrip s <> [] -> lstrip (s ++ t) = lstrip s ++ t.
Proof.
  induction s as [|c s IH]; simpl; [congruence|].
  destruct (isspace c); auto.
Qed.

Lemma rstrip_idem (s : str) : rstrip (rstrip s) = rstrip s.
Proof. unfold rstrip. now rewrite rev_involutive, lstrip_idem. Qed.

Lemma rstrip_cons (c : N) (s : str) :
  isspace c = false -> rstrip (c :: s) = c :: rstrip s.
Proof.
  intros Hc. unfold rstrip. simpl rev.
  destruct (lstrip (rev s)) as [|d t] eqn:E.
  - assert (H : lstrip (rev s ++ [c]) = [c]).
    { clear - E Hc. induction (rev s) as [|x l IH]; simpl in *.
      - now rewrite Hc.
      - destruct (isspace x); [auto | discriminate]. }
    now rewrite H.
  - rewrite lstrip_app by congruence. rewrite E, rev_app_distr. reflexivity.
Qed.

Lemma strip_idem (s : str) : strip (strip s) = strip s.
Proof.
  unfold strip. pose proof (lstrip_head s) as H.
  destruct (lstrip s) as [|c t] eqn:E; [reflexivity|].
  rewrite (@rstrip_cons c t H). simpl lstrip. rewrite H.
  rewrite (@rstrip_cons c (rstrip t) H). now rewrite rstrip_idem.
Qed.

Lemma lstrip_spaces (s : str) : forallb isspace s = true -> lstrip s = [].
Proof.
  induction s as [|c s IH]; simpl; auto.
  intros H. apply andb_true_iff in H. destruct H as [-> H]. auto.
Qed.

Lemma strip_spaces (s : str) : forallb isspace s = true -> strip s = [].
Proof. intros H. unfold strip. now rewrite (@lstrip_spaces s H). Qed.

Lemma number_too_long_strip (raw : str) :
  number_too_long (strip raw) = number_too_long raw.
Proof. unfold number_too_long. now rewrite strip_idem. Qed.

(** ** Entries taken apart *)

Lemma journal_re_inv (s : str) (g : groups) :
  re_match journal_re s = Some g ->
  exists p, journal_wf p /\ s = journal_text p /\ g = journal_groups_of p.
Proof.
  intros H. invert_match H; lit_subst.
  - refine (ex_intro _ (JournalParts _ _ _ _ _ _ _ _ _ _ _ (Some (_, _, _)) _ _ _ _) _).
    split; [|split; [cbn; repeat (rewrite <- app_assoc; cbn); reflexivity | reflexivity]].
    unfold journal_wf, volume_wf, digits, blank, no_newline, without; cbn.
    repeat split; auto using nonempty_len; lia.
  - refine (ex_intro _ (JournalParts _ _ _ _ _ _ _ _ _ _ _ None _ _ _ _) _).
    split; [|split; [reflexivity | reflexivity]].
    unfold journal_wf, volume_wf, digits, blank, no_newline, without; cbn.
    repeat split; auto using nonempty_len; lia.
Qed.

Lemma monograph_re_inv (s : str) (g : groups) :
  re_match monograph_re s = Some g ->
  exists p, monograph_wf p /\ s = monograph_text p /\ g = monograph_groups_of p.
Proof.
  intros H. invert_match H; lit_subst.
  refine (ex_intro _ (MonographParts _ _ _ _ _ _ _ _ _ _ _ _ _ _ _) _).
  split; [|split; [reflexivity | reflexivity]].
  unfold monograph_wf, digits, blank, no_newline, without; cbn.
  repeat split; auto using nonempty_len; lia.
Qed.

(** ** [parse_reference] in closed form *)

Lemma index_of_bracketed (d rest : str) :
  d <> [] -> forallb isdecimal d = true ->
  index_of (bracketed d rest) = Some (int_digits d).
Proof.
  intros Hd Hdec. unfold index_of. now rewrite index_re_complete.
Qed.

Lemma parse_reference_cases (raw : str) (r : Reference) :
  parse_reference raw = Ret r ->
  match first_match (strip raw) with
  | Some journal =>
    exists p l, journal_wf p /\ strip raw = journal_text p
                /\ _parse_authors (Some (j_authors p)) = Ret l
                /\ r = journal_record raw p l
  | Some monograph =>
    exists p l, monograph_wf p /\ strip raw = monograph_text p
                /\ _parse_authors (Some (m_authors p)) = Ret l
                /\ r = monograph_record raw p l
  | t => r = bare_record raw t
  end.
Proof.
  unfold parse_reference. rewrite parse_index_eq.
  destruct (number_too_long raw); cbn [bind]; [discriminate|].
  unfold first_match, patterns, try_patterns, find. cbn [snd fst].
  destruct (re_match journal_re (strip raw)) as [g|] eqn:Ej; cbn [is_match option_map fst].
  { destruct (journal_re_inv _ Ej) as (p & Hwf & Hs & ->).
    destruct (parse_authors_marked (j_authors p)) as (l & Hl & _).
    cbn -[_parse_authors index_of strip]. rewrite Hl. cbn -[_parse_authors index_of strip].
    intros H. inversion H. exists p, l.
    split; [exact Hwf|]. split; [exact Hs|]. split; [exact Hl|].
    unfold journal_record. f_equal.
    - rewrite Hs. apply index_of_bracketed; apply Hwf.
    - destruct Hwf as (_ & _ & _ & _ & _ & _ & _ & _ & _ & _ & _ & Hv & _).
      destruct (j_volume p) as [[[gap vol] iss]|]; auto.
      destruct vol; auto. now destruct Hv as (_ & Hv & _).
    - destruct Hwf as (_ & _ & _ & _ & _ & _ & _ & _ & _ & _ & _ & Hv & _).
      destruct (j_volume p) as [[[gap vol] iss]|]; auto.
      destruct iss; auto. now destruct Hv as (_ & _ & _ & Hv & _).
    - destruct Hwf as (_ & _ & _ & _ & _ & _ & _ & _ & _ & _ & _ & _ & _ & _ & Hp & _).
      now destruct (j_pages p). }
  destruct (re_match monograph_re (strip raw)) as [g|] eqn:Em; cbn [is_match option_map fst].
  { destruct (monograph_re_inv _ Em) as (p & Hwf & Hs & ->).
    destruct (parse_authors_marked (m_authors p)) as (l & Hl & _).
    cbn -[_parse_authors index_of strip]. rewrite Hl. cbn -[_parse_authors index_of strip].
    intros H. inversion H. exists p, l.
    split; [exact Hwf|]. split; [exact Hs|]. split; [exact Hl|].
    unfold monograph_record. f_equal.
    rewrite Hs. apply index_of_bracketed; apply Hwf. }
  destruct (re_match conference_re (strip raw)) as [g|] eqn:Ec; cbn [is_match option_map fst].
  { cbn -[index_of strip]. intros H. now inversion H. }
  destruct (re_match dissertation_re (strip raw)) as [g|] eqn:Ed; cbn [is_match option_map fst].
  { cbn -[index_of strip]. intros H. now inversion H. }
  destruct (re_match standard_re (strip raw)) as [g|] eqn:Es; cbn [is_match option_map fst].
  { cbn -[index_of strip]. intros H. now inversion H. }
  cbn -[index_of strip]. intros H. now inversion H.
Qed.

(** ** Parsed records *)
Lemma parsed_type (raw : str) (r : Reference) :
  parse_reference raw = Ret r -> type r = first_match (strip raw).
Proof.
  intros H. apply parse_reference_cases in H.
  destruct (first_match (strip raw)) as [[]|].
  1,2: destruct H as (p & l & _ & _ & _ & ->); reflexivity.
  all: subst r; reflexivity.
Qed.

Lemma check_year_digits (r : Reference) (y : str) :
  year r = Some y -> digits 4 y -> check_year r = [].
Proof.
  intros Hy Hd. unfold check_year. rewrite Hy.
  pose proof (@year_re_complete y Hd) as Hm.
  destruct Hd as [Hl _]. destruct y; [discriminate|]. now rewrite Hm.
Qed.

Lemma check_authors_marked (r : Reference) (a : str) :
  _parse_authors (Some a) = Ret (authors r) -> check_authors r = [].
Proof.
  intros Ha. destruct (parse_authors_marked a) as (l & Hl & Hne & Hm).
  rewrite Ha in Hl. inversion Hl; subst l.
  unfold check_authors. rewrite Hm. now destruct (authors r).
Qed.

Lemma validate_parsed (raw : str) (r : Reference) (refs : list Reference) :
  parse_reference raw = Ret r ->
  validate_reference refs r = check_index refs r ++ kind_errors r.
Proof.
  intros H. apply parse_reference_cases in H.
  unfold validate_reference, kind_errors. f_equal.
  destruct (first_match (strip raw)) as [[]|].
  - destruct H as (p & l & Hwf & _ & Hl & ->). cbn [type journal_record].
    rewrite (@check_authors_marked (journal_record raw p l) (j_authors p) Hl).
    rewrite (@check_year_digits (journal_record raw p l) (j_year p) eq_refl)
      by apply Hwf.
    cbn [app]. unfold check_type. cbn. now rewrite app_nil_r.
  - destruct H as (p & l & Hwf & _ & Hl & ->). cbn [type monograph_record].
    rewrite (@check_authors_marked (monograph_record raw p l) (m_authors p) Hl).
    rewrite (@check_year_digits (monograph_record raw p l) (m_year p) eq_refl)
      by apply Hwf.
    cbn [app]. unfold check_type. cbn. now rewrite app_nil_r.
  - subst r. reflexivity.
  - subst r. reflexivity.
  - subst r. reflexivity.
  - subst r. reflexivity.
Qed.

Lemma parsed_title (raw : str) (r : Reference) :
  parse_reference raw = Ret r ->
  type r = Some journal \/ type r = Some monograph ->
  exists c t, title r = Some (c :: t).
Proof.
  intros H Hk. pose proof (@parsed_type raw r H) as Ht.
  apply parse_reference_cases in H.
  destruct (first_match (strip raw)) as [[]|];
    try (destruct Hk as [Hk|Hk]; rewrite Hk in Ht; discriminate).
  - destruct H as (p & l & Hwf & _ & _ & ->). cbn.
    destruct Hwf as (_ & _ & _ & _ & [Hne _] & _).
    destruct (j_title p) as [|c t]; [congruence | eauto].
  - destruct H as (p & l & Hwf & _ & _ & ->). cbn.
    destruct Hwf as (_ & _ & _ & _ & [Hne _] & _).
    destruct (m_title p) as [|c t]; [congruence | eauto].
Qed.

(** A record passes exactly when it is a journal or monograph record with
    the number the check expects and a title of at most 100 characters. *)
Lemma record_passes (raw : str) (r : Reference) (refs : list Reference) :
  parse_reference raw = Ret r ->
  (validate_reference refs r = [] <->
   (type r = Some journal \/ type r = Some monograph)
   /\ check_index refs r = []
   /\ forall t, title r = Some t -> len t <= 100).
Proof.
  intros H. rewrite (@validate_parsed raw r refs H). split.
  - intros E. apply app_eq_nil in E. destruct E as [Ei Ek].
    assert (Hk : type r = Some journal \/ type r = Some monograph).
    { unfold kind_errors in Ek. destruct (type r) as [[]|]; auto; discriminate. }
    repeat split; auto.
    intros t Ht. unfold kind_errors, check_title in Ek. rewrite Ht in Ek.
    destruct (@parsed_title raw r H Hk) as (c & t' & Ht'). rewrite Ht in Ht'.
    inversion Ht'; subst t.
    destruct (100 <? len (c :: t')) eqn:El.
    + destruct Hk as [Hk|Hk]; rewrite Hk in Ek; discriminate.
    + now apply N.ltb_ge.
  - intros (Hk & Hi & Ht). rewrite Hi. cbn [app].
    destruct (@parsed_title raw r H Hk) as (c & t & Hc).
    assert (Hl : (100 <? len (c :: t)) = false) by (apply N.ltb_ge; auto).
    unfold kind_errors, check_title. rewrite Hc, Hl.
    destruct Hk as [Hk|Hk]; now rewrite Hk.
Qed.

Lemma parsed_index_of (raw : str) (r : Reference) :
  parse_reference raw = Ret r -> index r = index_of (strip raw).
Proof.
  intros H. apply parse_reference_cases in H.
  destruct (first_match (strip raw)) as [[]|].
  1,2: destruct H as (p & l & Hwf & Hs & _ & ->); cbn; rewrite Hs;
       symmetry; apply index_of_bracketed; apply Hwf.
  all: subst r; reflexivity.
Qed.

(** X1.  The number of a record is read from the start of the stripped
    entry, whether or not the entry is classified: an entry that starts
    with a bracketed run of digits gets the value of these digits, and a
    record has a number only if its entry starts so. *)
Theorem number_read_from_leading_bracket (raw : str) (r : Reference)
    (Hp : parse_reference raw = Ret r) :
  (forall d rest, d <> [] -> forallb isdecimal d = true ->
     strip raw = bracketed d rest -> index r = Some (int_digits d))
  /\ (forall n, index r = Some n ->
        exists d rest, strip raw = bracketed d rest /\ d <> []
                       /\ forallb isdecimal d = true /\ n = int_digits d).
Proof.
  rewrite (@parsed_index_of raw r Hp). split.
  - intros d rest Hd Hdec ->. now apply index_of_bracketed.
  - intros n. unfold index_of.
    destruct (re_match index_re (strip raw)) as [g|] eqn:E; [|discriminate].
    apply index_re_inv in E. destruct E as (d & rest & Hs & -> & Hd & Hdec).
    intros H. inversion H. exists d, rest. auto.
Qed.

Lemma number_read_from_leading_bracket_witness :
  exists r, parse_reference numbered_url = Ret r /\ type r = None
            /\ index r = Some 12.
Proof.
  eexists. split; [vm_compute; reflexivity|]. split; [reflexivity|].
  match goal with |- index ?r = _ =>
    assert (Hp : parse_reference numbered_url = Ret r) by (vm_compute; reflexivity);
    apply (proj1 (@number_read_from_leading_bracket numbered_url r Hp)
             (u "12") (u " https://example.com/references.html"));
      [discriminate | reflexivity | vm_compute; reflexivity]
  end.
Defined.

Lemma find_first {A} (f : A -> bool) (l : list A) :
  match find f l with
  | Some x => exists before after,
      l = before ++ x :: after /\ f x = true /\ Forall (fun y => f y = false) before
  | None => Forall (fun y => f y = false) l
  end.
Proof.
  induction l as [|a l IH]; simpl; [constructor|].
  destruct (f a) eqn:E.
  - exists [], l. repeat split; auto.
  - destruct (find f l) as [x|].
    + destruct IH as (before & after & -> & Hx & Hb).
      exists (a :: before), after. repeat split; auto.
    + constructor; auto.
Qed.

Lemma is_match_false (m : option groups) : is_match m = false <-> m = None.
Proof. destruct m; simpl; split; congruence. Qed.

(** X2.  The type of a record is the key of the first pattern of the
    table, in the order journal, monograph, conference, dissertation,
    standard, that matches the stripped entry; the record has no type
    exactly when no pattern matches. *)
Theorem first_matching_pattern_wins (raw : str) (r : Reference)
    (Hp : parse_reference raw = Ret r) :
  match type r with
  | Some k =>
    exists before pat after,
      patterns = before ++ (k, pat) :: after
      /\ re_match pat (strip raw) <> None
      /\ Forall (fun q => re_match (snd q) (strip raw) = None) before
  | None => no_match (strip raw)
  end.
Proof.
  rewrite (@parsed_type raw r Hp). unfold first_match.
  pose proof (find_first (fun p => is_match (re_match (snd p) (strip raw))) patterns) as H.
  destruct (find _ patterns) as [[k pat]|]; cbn [option_map fst].
  - destruct H as (before & after & E & Hm & Hb).
    exists before, pat, after. repeat split; auto.
    + cbn [snd] in Hm. intros Hn. rewrite Hn in Hm. discriminate.
    + eapply Forall_impl; [|exact Hb]. intros q. apply is_match_false.
  - unfold no_match. eapply Forall_impl; [|exact H]. intros q. apply is_match_false.
Qed.

Lemma first_matching_pattern_wins_witness :
  exists r, parse_reference journal_and_monograph = Ret r
    /\ type r = Some journal
    /\ re_match monograph_re journal_and_monograph <> None
    /\ exists before pat after,
         patterns = before ++ (journal, pat) :: after
         /\ re_match pat (strip journal_and_monograph) <> None
         /\ Forall (fun q => re_match (snd q) (strip journal_and_monograph) = None)
                   before.
Proof.
  eexists. split; [vm_compute; reflexivity|].
  match goal with |- type ?r = _ /\ _ =>
    assert (Hp : parse_reference journal_and_monograph = Ret r)
      by (vm_compute; reflexivity);
    pose proof (@first_matching_pattern_wins journal_and_monograph r Hp) as Hw
  end.
  split; [reflexivity|]. split; [vm_compute; discriminate|]. exact Hw.
Defined.

(** X3.  White space around an entry changes nothing but [raw_text]:
    parsing an entry gives the record of the stripped entry with the
    original text stored. *)
Theorem surrounding_whitespace_ignored (raw : str) :
  parse_reference raw =
    (r <- parse_reference (strip raw) ;; Ret (with_raw_text r raw)).
Proof.
  unfold parse_reference.
  rewrite !parse_index_eq, number_too_long_strip, !strip_idem.
  destruct (number_too_long raw); [reflexivity|]. cbn [bind].
  unfold patterns, try_patterns.
  destruct (re_match journal_re (strip raw)) as [g|] eqn:Ej.
  { destruct (journal_groups _ Ej) as (g0 & a & t & src & y & v & n & p & -> & _).
    destruct (parse_authors_marked a) as (l & Hl & _).
    cbn -[_parse_authors index_of strip]. rewrite Hl. reflexivity. }
  destruct (re_match monograph_re (strip raw)) as [g|] eqn:Em.
  { destruct (monograph_groups _ Em) as (g0 & a & t & src & pub & y & p & -> & _).
    destruct (parse_authors_marked a) as (l & Hl & _).
    cbn -[_parse_authors index_of strip]. rewrite Hl. reflexivity. }
  destruct (re_match conference_re (strip raw)); [reflexivity|].
  destruct (re_match dissertation_re (strip raw)); [reflexivity|].
  destruct (re_match standard_re (strip raw)); reflexivity.
Qed.

(** X4.  A journal or monograph record has a non-empty title, and the
    only errors it can get are the one about its number and the one about
    a title of more than 100 characters. *)
Theorem journal_and_monograph_errors (raw : str) (r : Reference)
    (refs : list Reference) (Hp : parse_reference raw = Ret r)
    (Hk : type r = Some journal \/ type r = Some monograph) :
  exists t, title r = Some t /\ t <> []
    /\ validate_reference refs r =
       check_index refs r
       ++ (if 100 <? len t then [msg_long_title (len t)] else []).
Proof.
  destruct (@parsed_title raw r Hp Hk) as (c & t & Ht).
  exists (c :: t). split; [exact Ht|]. split; [discriminate|].
  rewrite (@validate_parsed raw r refs Hp). f_equal.
  unfold kind_errors, check_title. rewrite Ht.
  destruct Hk as [Hk|Hk]; now rewrite Hk.
Qed.

(** X5.  A record classified as conference paper, dissertation or
    standard always gets the errors for missing authors, missing title and
    missing year, after whatever the check of its number reports, and no
    warnings. *)
Theorem unextracted_kinds_always_fail (raw : str) (r : Reference)
    (refs : list Reference) (Hp : parse_reference raw = Ret r)
    (Hk : type r = Some conference \/ type r = Some dissertation
          \/ type r = Some standard) :
  validate_reference refs r =
    check_index refs r ++ [msg_no_authors; msg_no_title; msg_no_year]
  /\ check_common_problems r = [].
Proof.
  split.
  - rewrite (@validate_parsed raw r refs Hp). f_equal. unfold kind_errors.
    destruct Hk as [Hk | [Hk | Hk]]; now rewrite Hk.
  - destruct (@unextracted_kinds raw r Hp Hk) as (Ha & _ & Hs & _ & _ & _ & Hpg).
    unfold check_common_problems, warn_source, warn_pages, warn_latin.
    rewrite Ha, Hs, Hpg. now destruct (type_is r journal).
Qed.

Lemma parse_authors_bounds (s : str) (l : list str) :
  _parse_authors (Some s) = Ret l ->
  (1 <= length l <= 4)%nat /\ (length l = 4%nat -> nth_error l 3 = Some et_al).
Proof.
  unfold _parse_authors.
  destruct (is_match (re_search cjk_re s)).
  2: { intros H. inversion H. simpl. split; [lia | discriminate]. }
  destruct (has_char (ch ",") s).
  2: { intros H. inversion H. simpl. split; [lia | discriminate]. }
  destruct (3 <? len (split (ch ",") s)) eqn:E; intros H.
  - assert (l = firstn 3 (split (ch ",") s) ++ [et_al]) by congruence.
    subst l. clear H. apply N.ltb_lt in E. unfold len in E.
    assert (Hl : length (firstn 3 (split (ch ",") s)) = 3%nat)
      by (rewrite length_firstn; lia).
    rewrite length_app, Hl. split; [simpl; lia|]. intros _.
    rewrite nth_error_app2 by lia. now rewrite Hl.
  - assert (l = split (ch ",") s) by congruence.
    subst l. clear H. apply N.ltb_ge in E. unfold len in E.
    pose proof (split_nonempty (ch ",") s) as Hn.
    destruct (split (ch ",") s); [congruence|]. simpl in *. split; lia.
Qed.

(** X6.  The author list of a parsed record has at most four elements;
    when it has four, the last one is the marker; and it is empty exactly
    for the records that are neither journal nor monograph. *)
Theorem author_list_bounded (raw : str) (r : Reference)
    (Hp : parse_reference raw = Ret r) :
  (length (authors r) <= 4)%nat
  /\ (length (authors r) = 4%nat -> nth_error (authors r) 3 = Some et_al)
  /\ (authors r = [] <-> type r <> Some journal /\ type r <> Some monograph).
Proof.
  pose proof (@parsed_type raw r Hp) as Ht.
  apply parse_reference_cases in Hp.
  destruct (first_match (strip raw)) as [[]|].
  1,2: destruct Hp as (p & l & _ & _ & Hl & ->); cbn [authors type journal_record monograph_record];
       destruct (parse_authors_bounds _ Hl) as [[H1 H4] Hm];
       (split; [lia|]); (split; [exact Hm|]);
       split; [intros ->; simpl in H1; lia | intros [H H']; congruence].
  all: subst r; cbn; split; [lia|]; split; [discriminate|];
       split; [intros _; split; discriminate | reflexivity].
Qed.

(** X7.  Volume and issue of a parsed record are both present or both
    absent, never empty, and present only for journal records. *)
Theorem volume_and_issue_together (raw : str) (r : Reference)
    (Hp : parse_reference raw = Ret r) :
  (volume r = None <-> issue r = None)
  /\ volume r <> Some [] /\ issue r <> Some []
  /\ (volume r <> None -> type r = Some journal).
Proof.
  apply parse_reference_cases in Hp.
  destruct (first_match (strip raw)) as [[]|].
  - destruct Hp as (p & l & Hwf & _ & _ & ->). cbn.
    destruct Hwf as (_ & _ & _ & _ & _ & _ & _ & _ & _ & _ & _ & Hv & _).
    destruct (j_volume p) as [[[gap vol] iss]|].
    + destruct Hv as (_ & Hvol & _ & Hiss & _).
      repeat split; try discriminate; congruence.
    + repeat split; auto; discriminate.
  - destruct Hp as (p & l & _ & _ & _ & ->). cbn.
    repeat split; auto; try discriminate. congruence.
  - subst r. cbn. repeat split; auto; try discriminate. congruence.
  - subst r. cbn. repeat split; auto; try discriminate. congruence.
  - subst r. cbn. repeat split; auto; try discriminate. congruence.
  - subst r. cbn. repeat split; auto; try discriminate. congruence.
Qed.

(** X8.  The fields of a journal record are pieces of its entry: the
    stripped entry is the bracketed number, the author block, the title,
    a bracketed number, the source, the year, optionally the volume and
    issue, and the pages, with the punctuation and white space of the
    pattern between them, followed by what the pattern leaves unread
    after its final full stop; and the record holds exactly these
    pieces. *)
Theorem journal_fields_reassemble (raw : str) (r : Reference)
    (Hp : parse_reference raw = Ret r) (Hk : type r = Some journal) :
  exists p, journal_wf p /\ strip raw = journal_text p
    /\ _parse_authors (Some (j_authors p)) = Ret (authors r)
    /\ r = journal_record raw p (authors r).
Proof.
  pose proof (@parsed_type raw r Hp) as Ht. rewrite Hk in Ht.
  apply parse_reference_cases in Hp. rewrite <- Ht in Hp.
  destruct Hp as (p & l & Hwf & Hs & Hl & ->). exists p. auto.
Qed.

(** X9.  The same for a monograph record; its [source] is the place of
    publication, and the publisher is read but not stored. *)
Theorem monograph_fields_reassemble (raw : str) (r : Reference)
    (Hp : parse_reference raw = Ret r) (Hk : type r = Some monograph) :
  exists p, monograph_wf p /\ strip raw = monograph_text p
    /\ _parse_authors (Some (m_authors p)) = Ret (authors r)
    /\ r = monograph_record raw p (authors r).
Proof.
  pose proof (@parsed_type raw r Hp) as Ht. rewrite Hk in Ht.
  apply parse_reference_cases in Hp. rewrite <- Ht in Hp.
  destruct Hp as (p & l & Hwf & Hs & Hl & ->). exists p. auto.
Qed.

(** ** Reports *)

Lemma parses_to_fun (es : list str) :
  forall refs refs', Forall2 parses_to es refs -> Forall2 parses_to es refs' ->
                     refs = refs'.
Proof.
  induction es as [|e es IH]; intros refs refs' H H'; inversion H; inversion H'; subst; auto.
  f_equal; [unfold parses_to in *; congruence | auto].
Qed.

Lemma parses_to_nth (es : list str) (refs : list Reference) :
  Forall2 parses_to es refs ->
  forall i r, nth_error refs i = Some r ->
              exists e, nth_error es i = Some e /\ parse_reference e = Ret r.
Proof.
  induction 1 as [|e r' es refs Hp HF IH]; intros i r Hn.
  - destruct i; discriminate.
  - destruct i; simpl in Hn.
    + inversion Hn; subst. exists e. auto.
    + apply IH in Hn. exact Hn.
Qed.

Lemma errors_of_app (a : list Reference) :
  forall seen b, errors_of seen (a ++ b) = errors_of seen a ++ errors_of (seen ++ a) b.
Proof.
  induction a as [|r a IH]; intros seen b; simpl.
  - now rewrite app_nil_r.
  - rewrite IH, <- !app_assoc. reflexivity.
Qed.

Lemma warnings_of_app (a b : list Reference) :
  warnings_of (a ++ b) = warnings_of a ++ warnings_of b.
Proof. unfold warnings_of. apply flat_map_app. Qed.

Lemma errors_of_nil (new : list Reference) :
  forall seen,
    errors_of seen new = [] <->
    forall i r, nth_error new i = Some r ->
                validate_reference (seen ++ firstn (S i) new) r = [].
Proof.
  induction new as [|a new IH]; intros seen; simpl.
  - split; auto. intros _ i r Hn. destruct i; discriminate.
  - split.
    + intros H. apply app_eq_nil in H. destruct H as [Ha Hr].
      intros i r Hn. destruct i; simpl in Hn.
      * inversion Hn; subst. simpl. now destruct (validate_reference (seen ++ [r]) r).
      * rewrite IH in Hr. specialize (Hr i r Hn).
        rewrite <- app_assoc in Hr. exact Hr.
    + intros H. pose proof (H 0%nat a eq_refl) as H0. simpl in H0.
      rewrite H0. simpl. apply IH.
      intros i r Hn. rewrite <- app_assoc. exact (H (S i) r Hn).
Qed.

Lemma firstn_S_nth {A} (l : list A) :
  forall i x, nth_error l i = Some x -> firstn (S i) l = firstn i l ++ [x].
Proof.
  induction l as [|a l IH]; intros i x Hn; destruct i; simpl in *; try discriminate.
  - now inversion Hn.
  - f_equal. auto.
Qed.

Lemma len_firstn_nth {A} (l : list A) (i : nat) (x : A) :
  nth_error l i = Some x -> len (firstn i l) = N.of_nat i.
Proof.
  intros Hn. unfold len. rewrite length_firstn. f_equal.
  assert (i < length l)%nat by (apply nth_error_Some; congruence). lia.
Qed.

(** X10.  A report is valid exactly when every record is a journal or
    monograph record, carries the number of its position plus one (2 for
    the first record), and has a title of at most 100 characters. *)
Theorem report_valid_iff (text : str) (rep : Report)
    (Hv : validate_references text = Ret rep) :
  valid rep = true <->
  forall i r, nth_error (references rep) i = Some r ->
    (type r = Some journal \/ type r = Some monograph)
    /\ index r = Some (N.of_nat i + 2)
    /\ (forall t, title r = Some t -> len t <= 100).
Proof.
  destruct (@report_spec text rep Hv) as (refs & HF & Hr). subst rep. cbn [valid references report_of].
  rewrite len_0, errors_of_nil. cbn [app].
  split; intros H i r Hn.
  - destruct (parses_to_nth HF i Hn) as (e & _ & Hp).
    specialize (H i r Hn). rewrite (firstn_S_nth _ _ Hn) in H.
    apply (@record_passes e r _ Hp) in H. destruct H as (Hk & Hi & Ht).
    apply check_index_spec in Hi. rewrite (len_firstn_nth _ _ Hn) in Hi. auto.
  - destruct (parses_to_nth HF i Hn) as (e & _ & Hp).
    destruct (H i r Hn) as (Hk & Hi & Ht).
    rewrite (firstn_S_nth _ _ Hn). apply (@record_passes e r _ Hp).
    repeat split; auto. apply check_index_spec.
    now rewrite (len_firstn_nth _ _ Hn).
Qed.

(** X11.  A record whose number is its position in the batch, counted
    from 1, is always reported with the sequence error that asks for the
    next number, and the report is invalid. *)
Theorem correct_number_reported (text : str) (rep : Report) (i : nat) (r : Reference)
    (Hv : validate_references text = Ret rep)
    (Hn : nth_error (references rep) i = Some r)
    (Hi : index r = Some (N.of_nat i + 1)) :
  In (tag r (msg_sequence (N.of_nat i + 2))) (all_errors rep)
  /\ valid rep = false.
Proof.
  destruct (@report_spec text rep Hv) as (refs & HF & Hr). subst rep.
  cbn [valid references all_errors report_of] in *.
  assert (Hin : In (tag r (msg_sequence (N.of_nat i + 2))) (errors_of [] refs)).
  { apply (@errors_of_in refs [] i r _ Hn). cbn [app].
    rewrite (firstn_S_nth _ _ Hn). unfold validate_reference.
    apply in_or_app. left. unfold check_index, len. rewrite Hi.
    rewrite length_app, length_firstn. cbn [length].
    assert (i < length refs)%nat by (apply nth_error_Some; congruence).
    replace (N.of_nat (Nat.min i (length refs) + 1) + 1) with (N.of_nat i + 2) by lia.
    destruct (N.of_nat i + 1 =? N.of_nat i + 2) eqn:E.
    - apply N.eqb_eq in E. lia.
    - now left. }
  split; [exact Hin|].
  destruct (len (errors_of [] refs) =? 0) eqn:E; auto.
  apply len_0 in E. rewrite E in Hin. destruct Hin.
Qed.

(** X12.  The report depends only on the non-blank lines of the text,
    each stripped: blank lines, repeated newlines and white space around a
    line change nothing. *)
Theorem report_depends_on_entries (t1 t2 : str)
    (He : entries t1 = entries t2) :
  validate_references t1 = validate_references t2.
Proof.
  destruct (report_cases t1) as (refs1 & HF1 & ->).
  destruct (report_cases t2) as (refs2 & HF2 & ->).
  rewrite He in *. now rewrite (parses_to_fun HF1 HF2).
Qed.

(** X13.  Adding entries after a batch leaves the findings of the batch
    as they were: the records, errors and warnings of the longer batch
    start with those of the shorter one. *)
Theorem earlier_findings_stable (t1 t2 : str) (more : list str) (rep1 rep2 : Report)
    (H1 : validate_references t1 = Ret rep1)
    (H2 : validate_references t2 = Ret rep2)
    (He : entries t2 = entries t1 ++ more) :
  exists refs,
    Forall2 parses_to more refs
    /\ references rep2 = references rep1 ++ refs
    /\ all_errors rep2 = all_errors rep1 ++ errors_of (references rep1) refs
    /\ all_warnings rep2 = all_warnings rep1 ++ warnings_of refs.
Proof.
  destruct (@report_spec t1 rep1 H1) as (refs1 & HF1 & Hr1).
  destruct (@report_spec t2 rep2 H2) as (refs2 & HF2 & Hr2). subst.
  rewrite He in HF2. apply Forall2_app_inv_l in HF2.
  destruct HF2 as (a & b & Ha & Hb & ->).
  rewrite (parses_to_fun HF1 Ha). exists b.
  cbn [references all_errors all_warnings report_of].
  rewrite errors_of_app, warnings_of_app. auto.
Qed.

Ltac at_most_one :=
  repeat match goal with
  | |- context [match ?x with _ => _ end] => destruct x
  end; cbn [length]; lia.

Lemma record_findings_bounded (refs : list Reference) (r : Reference) :
  (length (validate_reference refs r) <= 5)%nat
  /\ (length (check_common_problems r) <= 3)%nat.
Proof.
  split.
  - unfold validate_reference. rewrite !length_app.
    assert (length (check_index refs r) <= 1)%nat by (unfold check_index; at_most_one).
    assert (length (check_authors r) <= 1)%nat by (unfold check_authors; at_most_one).
    assert (length (check_title r) <= 1)%nat by (unfold check_title; at_most_one).
    assert (length (check_type r) <= 1)%nat by (unfold check_type; at_most_one).
    assert (length (check_year r) <= 1)%nat by (unfold check_year; at_most_one).
    lia.
  - unfold check_common_problems. rewrite !length_app.
    assert (length (warn_source r) <= 1)%nat by (unfold warn_source; at_most_one).
    assert (length (warn_pages r) <= 1)%nat by (unfold warn_pages; at_most_one).
    assert (length (warn_latin r) <= 1)%nat by (unfold warn_latin; at_most_one).
    lia.
Qed.

Lemma errors_of_bounded (new : list Reference) :
  forall seen, (length (errors_of seen new) <= 5 * length new)%nat.
Proof.
  induction new as [|r new IH]; intros seen; cbn [errors_of length]; [lia|].
  rewrite length_app, length_map.
  pose proof (proj1 (record_findings_bounded (seen ++ [r]) r)).
  specialize (IH (seen ++ [r])). lia.
Qed.

Lemma warnings_of_bounded (rs : list Reference) :
  (length (warnings_of rs) <= 3 * length rs)%nat.
Proof.
  unfold warnings_of. induction rs as [|r rs IH]; cbn [flat_map length]; [lia|].
  rewrite length_app, length_map.
  pose proof (proj2 (record_findings_bounded [] r)). lia.
Qed.

(** X14.  The number of records is the number of non-blank lines, and
    a report lists at most five errors and three warnings for each
    record. *)
Theorem findings_bounded (text : str) (rep : Report)
    (Hv : validate_references text = Ret rep) :
  total_references rep = len (entries text)
  /\ len (all_errors rep) <= 5 * total_references rep
  /\ len (all_warnings rep) <= 3 * total_references rep.
Proof.
  destruct (@report_spec text rep Hv) as (refs & HF & Hr). subst rep.
  cbn [total_references all_errors all_warnings report_of]. unfold len.
  pose proof (errors_of_bounded refs []).
  pose proof (warnings_of_bounded refs).
  pose proof (Forall2_length HF).
  repeat split; [f_equal; lia | lia | lia].
Qed.

(** X15.  A text of white space only is reported valid, with no record,
    no error and no warning. *)
Theorem blank_text_passes (text : str)
    (Hb : forallb isspace text = true) :
  validate_references text =
    Ret {| valid := true; total_references := 0; all_errors := [];
           all_warnings := []; references := [] |}.
Proof.
  unfold validate_references. now rewrite (@strip_spaces text Hb).
Qed.

Lemma lstrip_In (x : N) (s : str) : In x (lstrip s) -> In x s.
Proof.
  induction s as [|c s IH]; simpl; auto.
  destruct (isspace c); simpl; auto.
Qed.

Lemma strip_In (x : N) (s : str) : In x (strip s) -> In x s.
Proof.
  unfold strip, rstrip. intros H. apply in_rev in H. apply lstrip_In in H.
  apply in_rev in H. now apply lstrip_In.
Qed.

Lemma split_newlines_go_no_newline (s : str) :
  forall b, Forall (fun p => ~ In 10 p) (split_newlines_go b s).
Proof.
  induction s as [|c s IH]; intros b; simpl.
  - constructor; auto.
  - destruct (c =? 10) eqn:E.
    + destruct b; [apply IH | constructor; auto].
    + specialize (IH false). destruct (split_newlines_go false s) as [|t ts].
      * constructor; auto. intros [H|[]]. subst. discriminate.
      * inversion IH; subst. constructor; auto.
        intros [H|H]; [subst; discriminate | auto].
Qed.

(** X16.  The records of a report are in one-to-one correspondence with
    the non-blank lines of the text: their [raw_text]s are these lines,
    stripped, in order, and none of them is empty or contains a
    newline. *)
Theorem records_are_stripped_lines (text : str) (rep : Report)
    (Hv : validate_references text = Ret rep) :
  map raw_text (references rep) = entries text
  /\ Forall (fun e => e <> [] /\ strip e = e /\ ~ In 10 e) (entries text).
Proof.
  destruct (@report_spec text rep Hv) as (refs & HF & Hr). subst rep. cbn [references report_of]. split.
  - clear Hv. induction HF as [|e r es refs Hp HF IH]; simpl; auto.
    f_equal; auto. destruct (@parsed_shape_of e r Hp) as (Hraw & _). exact Hraw.
  - unfold entries. apply Forall_forall. intros e He.
    apply filter_In in He. destruct He as [He Hne].
    apply in_map_iff in He. destruct He as (p & <- & Hp).
    split; [destruct (strip p); [discriminate | congruence]|].
    split; [apply strip_idem|].
    intros Hin. apply strip_In in Hin.
    pose proof (split_newlines_go_no_newline (strip text) false) as Hf.
    rewrite Forall_forall in Hf. exact (Hf p Hp Hin).
Qed.


(** ** The command line *)

Lemma skipn_app_exact {A} (l l' : list A) : skipn (length l) (l ++ l') = l'.
Proof. induction l; simpl; auto. Qed.

Lemma loop_io_spec (es : list str) :
  forall out refs errs warns,
  exists new,
    Forall2 parses_to (short_prefix (filter nonemptyb (map strip es))) new
    /\ loop_io out (refs, errs, warns) es =
       (out ++ flat_map print_type new,
        if existsb number_too_long (filter nonemptyb (map strip es))
        then Raise ValueError
        else Ret (refs ++ new, errs ++ errors_of refs new, warns ++ warnings_of new)).
Proof.
  induction es as [|e es IH]; intros out refs errs warns.
  - exists []. cbn. rewrite !app_nil_r. split; constructor.
  - cbn [loop_io map filter].
    destruct (loop_body_spec refs errs warns e)
      as [[E ->] | [(E & El & ->) | (E & El & r & Hr & ->)]].
    + cbn [loop_refs fst]. rewrite skipn_all. cbn [flat_map]. rewrite app_nil_r.
      rewrite E. cbn [nonemptyb]. apply IH.
    + exists []. destruct (strip e) eqn:Ee; [congruence|].
      cbn [nonemptyb existsb short_prefix flat_map]. rewrite El, app_nil_r.
      split; [constructor | reflexivity].
    + cbn [loop_refs fst]. rewrite skipn_app_exact. cbn [flat_map].
      destruct (IH (out ++ print_type r ++ []) (refs ++ [r])
                   (errs ++ map (tag r) (validate_reference (refs ++ [r]) r))
                   (warns ++ map (tag r) (check_common_problems r)))
        as (new & HF & ->).
      exists (r :: new). destruct (strip e) eqn:Ee; [congruence|].
      cbn [nonemptyb existsb short_prefix]. rewrite El. cbn [orb]. split.
      * constructor; auto.
      * destruct (existsb number_too_long _);
          cbn [errors_of warnings_of flat_map]; fold (warnings_of new);
          now rewrite app_nil_r, <- !app_assoc.
Qed.

(** What [validate_references] prints and returns: the type lines of the
    records it parses, up to the first entry whose number [int]
    refuses. *)
Lemma validate_references_io_spec (text : str) :
  exists refs, Forall2 parses_to (short_prefix (entries text)) refs
    /\ validate_references_io text =
       (flat_map print_type refs,
        if existsb number_too_long (entries text) then Raise ValueError
        else Ret (report_of refs)).
Proof.
  unfold validate_references_io, entries.
  destruct (loop_io_spec (split_newlines (strip text)) [] [] [] []) as (new & HF & ->).
  exists new. split; [exact HF|]. cbn [app]. f_equal.
  now destruct (existsb number_too_long _).
Qed.

Section CommandLine.
Variable path_exists : str -> bool.
Variable read_file : str -> str + str.

Lemma validate_and_report_spec (text : str) :
  exists refs, Forall2 parses_to (short_prefix (entries text)) refs
    /\ validate_and_report text =
       if existsb number_too_long (entries text)
       then (flat_map print_type refs, Uncaught ValueError)
       else (flat_map print_type refs ++ report_lines (report_of refs), Returns).
Proof.
  destruct (validate_references_io_spec text) as (refs & HF & Hio).
  exists refs. split; [exact HF|].
  unfold validate_and_report. rewrite Hio.
  now destruct (existsb number_too_long _).
Qed.

Lemma validate_and_report_outcome (text : str) :
  snd (validate_and_report text) =
    if existsb number_too_long (entries text) then Uncaught ValueError else Returns.
Proof.
  destruct (validate_and_report_spec text) as (refs & _ & ->).
  now destruct (existsb number_too_long _).
Qed.

Lemma len_ge_4 {A} (a b c d : A) (l : list A) :
  (len (a :: b :: c :: d :: l) <? 2) = false
  /\ (len (a :: b :: c :: d :: l) =? 3) = false.
Proof.
  unfold len. cbn [length]. split; [apply N.ltb_ge | apply N.eqb_neq]; lia.
Qed.

(** X17.  How [main] ends does not depend on the verdict.  When it gets
    as far as validating a text it returns normally, whether the
    references are valid or not, unless an entry starts with a bracketed
    number of more than 4300 digits: then the [ValueError] of [int]
    escapes.  In all other cases (too few or too many arguments, an
    unknown flag, a file that does not exist or cannot be read) it leaves
    with status 1. *)
Theorem exit_status_ignores_verdict (argv : list str) :
  snd (main path_exists read_file argv) =
    match validated_text path_exists read_file argv with
    | Some text =>
      if existsb number_too_long (entries text) then Uncaught ValueError
      else Returns
    | None => Exits 1
    end.
Proof.
  unfold main, validated_text, flag_input, flag_text, read_references_from_file.
  destruct argv as [|prog [|flag [|arg [|d l]]]]; try reflexivity.
  - change (len [prog; flag] <? 2) with false. change (len [prog; flag] =? 3) with false.
    cbn [nth negb].
    destruct (str_eqb flag (u "--input")); [reflexivity|].
    destruct (str_eqb flag (u "--text")); reflexivity.
  - change (len [prog; flag; arg] <? 2) with false.
    change (len [prog; flag; arg] =? 3) with true.
    cbn [nth negb].
    destruct (str_eqb flag (u "--input")).
    + destruct (path_exists arg); cbn [negb]; [|reflexivity].
      destruct (read_file arg) as [text|e]; [|reflexivity].
      apply validate_and_report_outcome.
    + destruct (str_eqb flag (u "--text")); [|reflexivity].
      apply validate_and_report_outcome.
  - destruct (len_ge_4 prog flag arg d l) as [-> ->].
    cbn [nth negb].
    destruct (str_eqb flag (u "--input")); [reflexivity|].
    destruct (str_eqb flag (u "--text")); reflexivity.
Qed.


End CommandLine.


(** ** The format examples and Latin-script authors *)

Lemma never_passes (raw : str) (r : Reference) :
  parse_reference raw = Ret r ->
  type r <> Some journal -> type r <> Some monograph ->
  forall refs, validate_reference refs r <> [].
Proof.
  intros Hp Hj Hm refs H. apply (@record_passes raw r refs Hp) in H.
  destruct H as ([H|H] & _); contradiction.
Qed.

(** X19.  None of the nine entries of [generate_format_examples] can
    pass: each is either not classified or classified as a conference
    paper, and gets an error wherever it stands in a batch. *)
Theorem format_examples_never_pass :
  Forall (fun e => exists r,
            parse_reference (after_label e) = Ret r
            /\ (type r = None \/ type r = Some conference)
            /\ forall refs, validate_reference refs r <> [])
         format_examples.
Proof.
  unfold format_examples.
  repeat (apply Forall_cons; [|]); [.. | apply Forall_nil].
  all: match goal with |- exists r, parse_reference ?raw = Ret r /\ _ =>
         let x := eval vm_compute in (parse_reference raw) in
         match x with
         | Ret ?r =>
           assert (Hp : parse_reference raw = Ret r) by (vm_compute; reflexivity);
           exists r; split; [exact Hp|];
           split; [cbn [type]; auto|];
           apply (@never_passes raw r Hp); cbn [type]; discriminate
         end
       end.
Qed.

(** X20.  An author block without a CJK ideograph is never split: it
    becomes the one author of the list, whatever the number of commas in
    it. *)
Theorem latin_authors_kept_whole (s : str) (Hl : existsb is_cjk s = false) :
  _parse_authors (Some s) = Ret [s].
Proof.
  unfold _parse_authors, re_search, cjk_re. rewrite search_chr.
  change (range 19968 40959) with is_cjk. now rewrite Hl.
Qed.

Lemma latin_authors_kept_whole_witness :
  _parse_authors (Some (u "Smith J, Johnson M, Lee K, Wang L")) =
    Ret [u "Smith J, Johnson M, Lee K, Wang L"].
Proof.
  apply latin_authors_kept_whole. vm_compute. reflexivity.
Defined.

(** ** Witnesses *)

Lemma journal_and_monograph_errors_witness :
  exists r, parse_reference four_authors_entry = Ret r
    /\ validate_reference [r] r = [msg_sequence 2].
Proof.
  eexists. split; [vm_compute; reflexivity|].
  match goal with |- validate_reference ?refs ?r = _ =>
    assert (Hp : parse_reference four_authors_entry = Ret r) by (vm_compute; reflexivity);
    destruct (@journal_and_monograph_errors four_authors_entry r refs Hp
                (or_introl eq_refl)) as (t & Ht & _ & ->)
  end.
  inversion Ht; subst t. vm_compute. reflexivity.
Defined.

Lemma unextracted_kinds_always_fail_witness :
  exists r, parse_reference conference_example = Ret r
    /\ validate_reference [r] r =
       [msg_sequence 2; msg_no_authors; msg_no_title; msg_no_year]
    /\ check_common_problems r = [].
Proof.
  eexists. split; [vm_compute; reflexivity|].
  match goal with |- validate_reference ?refs ?r = _ /\ _ =>
    assert (Hp : parse_reference conference_example = Ret r) by (vm_compute; reflexivity);
    destruct (@unextracted_kinds_always_fail conference_example r refs Hp
                (or_introl eq_refl)) as (H1 & H2)
  end.
  split; [rewrite H1; vm_compute; reflexivity | exact H2].
Defined.

Lemma report_valid_iff_witness :
  exists rep, validate_references valid_batch = Ret rep
    /\ valid rep = true
    /\ forall i r, nth_error (references rep) i = Some r ->
         index r = Some (N.of_nat i + 2).
Proof.
  eexists. split; [vm_compute; reflexivity|]. split; [reflexivity|].
  intros i r Hn.
  match type of Hn with nth_error (references ?rep) _ = _ =>
    assert (Hv : validate_references valid_batch = Ret rep) by (vm_compute; reflexivity);
    apply (proj1 (@report_valid_iff valid_batch rep Hv) eq_refl i r Hn)
  end.
Defined.

Lemma correct_number_reported_witness :
  exists rep r, validate_references journal_example = Ret rep
    /\ nth_error (references rep) 0 = Some r
    /\ In (tag r (msg_sequence 2)) (all_errors rep)
    /\ valid rep = false.
Proof.
  do 2 eexists. split; [vm_compute; reflexivity|]. split; [reflexivity|].
  match goal with |- In (tag ?r _) (all_errors ?rep) /\ _ =>
    assert (Hv : validate_references journal_example = Ret rep) by (vm_compute; reflexivity);
    exact (@correct_number_reported journal_example rep 0 r Hv eq_refl eq_refl)
  end.
Defined.

Lemma author_list_bounded_witness :
  exists r, parse_reference four_authors_entry = Ret r
    /\ length (authors r) = 4%nat /\ nth_error (authors r) 3 = Some et_al.
Proof.
  eexists. split; [vm_compute; reflexivity|]. split; [reflexivity|].
  match goal with |- nth_error (authors ?r) _ = _ =>
    assert (Hp : parse_reference four_authors_entry = Ret r) by (vm_compute; reflexivity);
    apply (proj1 (proj2 (@author_list_bounded four_authors_entry r Hp)) eq_refl)
  end.
Defined.

Lemma volume_and_issue_together_witness :
  exists r, parse_reference four_authors_entry = Ret r
    /\ volume r = Some (u "20") /\ type r = Some journal.
Proof.
  eexists. split; [vm_compute; reflexivity|]. split; [reflexivity|].
  match goal with |- type ?r = _ =>
    assert (Hp : parse_reference four_authors_entry = Ret r) by (vm_compute; reflexivity);
    apply (proj2 (proj2 (proj2 (@volume_and_issue_together four_authors_entry r Hp))))
  end.
  discriminate.
Defined.

Lemma journal_fields_reassemble_witness :
  exists r p, parse_reference four_authors_entry = Ret r
    /\ journal_wf p /\ strip four_authors_entry = journal_text p
    /\ r = journal_record four_authors_entry p (authors r).
Proof.
  eexists.
  match goal with |- exists p, parse_reference _ = Ret ?r /\ _ =>
    assert (Hp : parse_reference four_authors_entry = Ret r) by (vm_compute; reflexivity);
    destruct (@journal_fields_reassemble four_authors_entry r Hp eq_refl)
      as (p & Hwf & Hs & _ & Hr)
  end.
  exists p. auto.
Defined.

Lemma monograph_fields_reassemble_witness :
  exists r p, parse_reference monograph_entry = Ret r
    /\ monograph_wf p /\ strip monograph_entry = monograph_text p
    /\ r = monograph_record monograph_entry p (authors r).
Proof.
  eexists.
  match goal with |- exists p, parse_reference _ = Ret ?r /\ _ =>
    assert (Hp : parse_reference monograph_entry = Ret r) by (vm_compute; reflexivity);
    destruct (@monograph_fields_reassemble monograph_entry r Hp eq_refl)
      as (p & Hwf & Hs & _ & Hr)
  end.
  exists p. auto.
Defined.

Lemma report_depends_on_entries_witness :
  validate_references spaced_batch =
  validate_references (join [10] [journal_example; conference_example]).
Proof.
  apply report_depends_on_entries. vm_compute. reflexivity.
Defined.

Lemma earlier_findings_stable_witness :
  exists rep1 rep2,
    validate_references journal_example = Ret rep1
    /\ validate_references (join [10] [journal_example; conference_example]) = Ret rep2
    /\ exists refs, references rep2 = references rep1 ++ refs
         /\ all_errors rep2 = all_errors rep1 ++ errors_of (references rep1) refs.
Proof.
  do 2 eexists. split; [vm_compute; reflexivity|]. split; [vm_compute; reflexivity|].
  match goal with |- exists refs, references ?rep2 = references ?rep1 ++ _ /\ _ =>
    assert (H1 : validate_references journal_example = Ret rep1) by (vm_compute; reflexivity);
    assert (H2 : validate_references (join [10] [journal_example; conference_example]) = Ret rep2)
      by (vm_compute; reflexivity);
    destruct (@earlier_findings_stable journal_example
                (join [10] [journal_example; conference_example])
                [conference_example] rep1 rep2 H1 H2)
      as (refs & _ & Hr & He & _); [vm_compute; reflexivity|]
  end.
  exists refs. auto.
Defined.

Lemma findings_bounded_witness :
  exists rep, validate_references journal_example = Ret rep
    /\ len (all_errors rep) <= 5 * total_references rep.
Proof.
  eexists. split; [vm_compute; reflexivity|].
  match goal with |- len (all_errors ?rep) <= _ =>
    assert (Hv : validate_references journal_example = Ret rep) by (vm_compute; reflexivity);
    apply (proj1 (proj2 (@findings_bounded journal_example rep Hv)))
  end.
Defined.

Lemma blank_text_passes_witness :
  exists rep, validate_references [32; 10; 9; 10; 12288] = Ret rep
    /\ valid rep = true /\ total_references rep = 0.
Proof.
  eexists. split; [apply blank_text_passes; reflexivity|]. split; reflexivity.
Defined.

Lemma records_are_stripped_lines_witness :
  exists rep, validate_references spaced_batch = Ret rep
    /\ map raw_text (references rep) = [journal_example; conference_example].
Proof.
  eexists. split; [vm_compute; reflexivity|].
  match goal with |- map raw_text (references ?rep) = _ =>
    assert (Hv : validate_references spaced_batch = Ret rep) by (vm_compute; reflexivity);
    rewrite (proj1 (@records_are_stripped_lines spaced_batch rep Hv))
  end.
  vm_compute. reflexivity.
Defined.

Lemma exit_status_ignores_verdict_witness :
  snd (main (fun _ => false) (fun _ => inr [])
         [u "validate_references.py"; flag_text; journal_example]) = Returns
  /\ snd (main (fun _ => false) (fun _ => inr [])
            [u "validate_references.py"; flag_input; u "refs.txt"]) = Exits 1
  /\ snd (main (fun _ => false) (fun _ => inr [])
            [u "validate_references.py"; flag_text; long_number_entry])
     = Uncaught ValueError.
Proof.
  split; [|split].
  all: rewrite exit_status_ignores_verdict; vm_compute; reflexivity.
Defined.


